(** * The session-synchronisation protocol of the painting-consultation server

    A shallow embedding of the WebSocket message handler of [registerRoutes]
    (server routes) and of the in-memory session store [DbStorage]
    (server storage), with the properties of the protocol proved about them.

    Conventions of the model.
    - A value read off the wire is a JavaScript value as [JSON.parse] builds
      it; the handler does not validate it against the zod schemas, so the
      model keeps it untyped ([value]).
    - [JSON.parse] itself is not re-implemented: a [frame] is its outcome,
      either the [SyntaxError] it throws or the value it returns.
    - The session store and the socket are threaded through a small
      state-and-exception monad [M]; what is written before a [throw] stays
      written, as in the source, where nothing is rolled back.
    - [Date.now()] is an input of every handler run.
    - One handler run is taken as atomic: frames of one connection are handled
      one after the other. *)

From Stdlib Require Import ZArith String Ascii List.
From stdpp Require Import base option strings gmap.

Local Open Scope Z_scope.
Local Set Warnings "-register-all".

(** ** JavaScript values, as far as JSON can build them *)

(** A number is kept as the decimal text that [ToString] gives it; doubles are
    not modelled.  Zero is the text ["0"]. *)
Inductive value : Type :=
| VUndefined
| VNull
| VBool (b : bool)
| VNum (repr : string)
| VStr (s : string)
| VArr (items : list value)
| VObj (members : list (string * value)).

(** The members of an object literal in the order of the text; [JSON.parse]
    keeps the last of several members with one name. *)
Fixpoint own (k : string) (members : list (string * value)) : option value :=
  match members with
  | [] => None
  | (k', v) :: rest =>
      match own k rest with
      | Some v' => Some v'
      | None => if String.eqb k k' then Some v else None
      end
  end.

(** [v.k] for the six names the handler reads ([type], [promptId],
    [selectedOptionId], [ok], [message], [ts]).  None of them is on a
    prototype, so only an object's own members answer; on [null] and
    [undefined] the access throws ([None]). *)
Definition prop (v : value) (k : string) : option value :=
  match v with
  | VUndefined | VNull => None
  | VObj members => Some (default VUndefined (own k members))
  | _ => Some VUndefined
  end.

(** [ToBoolean]. *)
Definition truthy (v : value) : bool :=
  match v with
  | VUndefined | VNull => false
  | VBool b => b
  | VNum repr => negb (String.eqb repr "0")
  | VStr s => negb (String.eqb s "")
  | VArr _ | VObj _ => true
  end.

(** [ToString], as a template literal applies it.  [None] is the [TypeError]
    of [OrdinaryToPrimitive]: an object parsed from JSON that has a member
    named [toString] hides [Object.prototype.toString] behind a value that
    cannot be called, and [valueOf] gives back the object. *)
Fixpoint ToString (v : value) : option string :=
  match v with
  | VUndefined => Some "undefined"
  | VNull => Some "null"
  | VBool true => Some "true"
  | VBool false => Some "false"
  | VNum repr => Some repr
  | VStr s => Some s
  | VArr items =>
      (fix join (l : list value) : option string :=
         match l with
         | [] => Some ""
         | x :: rest =>
             match (match x with
                    | VUndefined | VNull => Some ""
                    | _ => ToString x
                    end) with
             | None => None
             | Some sx =>
                 match rest with
                 | [] => Some sx
                 | _ :: _ =>
                     match join rest with
                     | None => None
                     | Some sr => Some (sx +:+ "," +:+ sr)
                     end
                 end
             end
         end) items
  | VObj members =>
      match own "toString" members with
      | Some _ => None
      | None => Some "[object Object]"
      end
  end.

(** [s === lit] for a string literal [lit]. *)
Definition is_str (v : value) (lit : string) : bool :=
  match v with
  | VStr s => String.eqb s lit
  | _ => false
  end.

(** ** Strings *)

(** [toLowerCase] on the letters A to Z; a string is its sequence of bytes and
    the bytes outside ASCII are left as they are.  The prefix tests below
    agree with the JavaScript ones all the same: the only characters outside
    ASCII whose lowercase form has an ASCII letter are the Kelvin sign (k,
    which is in none of the three words) and the dotted capital I (i followed
    by a combining dot, which none of the words continues with). *)
Definition lower_ascii (c : ascii) : ascii :=
  let n := nat_of_ascii c in
  if (andb (Nat.leb 65 n) (Nat.leb n 90)) then ascii_of_nat (n + 32) else c.

Fixpoint toLowerCase (s : string) : string :=
  match s with
  | EmptyString => EmptyString
  | String c rest => String (lower_ascii c) (toLowerCase rest)
  end.

(** [s.startsWith(w)]. *)
Definition startsWith (s w : string) : bool := String.prefix w s.

(** ** Data model (shared schema) *)

(** The field [id] of a session is [session_id] here, and the fields of
    [Message] and [Todo] carry a prefix, the names [id], [text] and [ts] being
    taken. *)

Record Approval : Type := { ts : Z; text : string }.

Record Message : Type := { role : string; msg_text : string; msg_ts : Z }.

Record Todo : Type := { todo_id : string; todo_text : string; status : string }.

(** [constraints] is a [Record<string, any>] used as a map.  The scalar fields
    are typed [string | null], but hold whatever [selectedOptionId] was. *)
Record PaintingBrief : Type := {
  style : value;
  palette : value;
  finish : value;
  vibe : list string;
  rooms : list string;
  constraints : gmap string value;
  timeline : value;
  budget : value;
  openQuestions : list string
}.

Record Session : Type := {
  session_id : string;
  createdAt : Z;
  messages : list Message;
  brief : PaintingBrief;
  todos : list Todo;
  approvals : list Approval
}.

(** [Partial<PaintingBrief>]: a key is absent ([None]) or present with a
    value, which may be [undefined]. *)
Module Partial.
Record t : Type := {
  style : option value;
  palette : option value;
  finish : option value;
  vibe : option (list string);
  rooms : option (list string);
  constraints : option (gmap string value);
  timeline : option value;
  budget : option value;
  openQuestions : option (list string)
}.

Definition empty : t :=
  {| style := None; palette := None; finish := None; vibe := None;
     rooms := None; constraints := None; timeline := None; budget := None;
     openQuestions := None |}.
End Partial.

(** The object literals [{ style: v }], [{ palette: v }], [{ finish: v }] and
    [{ constraints }] of the handler. *)
Definition only_style (v : value) : Partial.t :=
  {| Partial.style := Some v; Partial.palette := None; Partial.finish := None;
     Partial.vibe := None; Partial.rooms := None; Partial.constraints := None;
     Partial.timeline := None; Partial.budget := None;
     Partial.openQuestions := None |}.

Definition only_palette (v : value) : Partial.t :=
  {| Partial.style := None; Partial.palette := Some v; Partial.finish := None;
     Partial.vibe := None; Partial.rooms := None; Partial.constraints := None;
     Partial.timeline := None; Partial.budget := None;
     Partial.openQuestions := None |}.

Definition only_finish (v : value) : Partial.t :=
  {| Partial.style := None; Partial.palette := None; Partial.finish := Some v;
     Partial.vibe := None; Partial.rooms := None; Partial.constraints := None;
     Partial.timeline := None; Partial.budget := None;
     Partial.openQuestions := None |}.

Definition only_constraints (c : gmap string value) : Partial.t :=
  {| Partial.style := None; Partial.palette := None; Partial.finish := None;
     Partial.vibe := None; Partial.rooms := None; Partial.constraints := Some c;
     Partial.timeline := None; Partial.budget := None;
     Partial.openQuestions := None |}.

(** ** The session store ([DbStorage]) *)

(** [{ ...current, ...updates }]: every key of [updates] replaces the key of
    [current], the others stay. *)
Definition spread (current : PaintingBrief) (updates : Partial.t) : PaintingBrief :=
  {| style := default (style current) (Partial.style updates);
     palette := default (palette current) (Partial.palette updates);
     finish := default (finish current) (Partial.finish updates);
     vibe := default (vibe current) (Partial.vibe updates);
     rooms := default (rooms current) (Partial.rooms updates);
     constraints := default (constraints current) (Partial.constraints updates);
     timeline := default (timeline current) (Partial.timeline updates);
     budget := default (budget current) (Partial.budget updates);
     openQuestions := default (openQuestions current) (Partial.openQuestions updates) |}.

Definition set_brief (s : Session) (b : PaintingBrief) : Session :=
  {| session_id := session_id s; createdAt := createdAt s;
     messages := messages s; brief := b; todos := todos s;
     approvals := approvals s |}.

Definition push_approval (s : Session) (a : Approval) : Session :=
  {| session_id := session_id s; createdAt := createdAt s;
     messages := messages s; brief := brief s; todos := todos s;
     approvals := approvals s ++ [a] |}.

Definition empty_brief : PaintingBrief :=
  {| style := VNull; palette := VNull; finish := VNull; vibe := [];
     rooms := []; constraints := ∅; timeline := VNull; budget := VNull;
     openQuestions := [] |}.

Module DbStorage.

Definition getSession (id : string) (db : gmap string Session) : option Session :=
  db !! id.

Definition createSession (id : string) (now : Z) (db : gmap string Session)
  : Session * gmap string Session :=
  let session :=
    {| session_id := id; createdAt := now; messages := [];
       brief := empty_brief; todos := []; approvals := [] |} in
  (session, <[id := session]> db).

Definition saveSession (session : Session) (db : gmap string Session)
  : gmap string Session :=
  <[session_id session := session]> db.

Definition updateBrief (sessionId : string) (updates : Partial.t)
    (db : gmap string Session) : option Session * gmap string Session :=
  match db !! sessionId with
  | None => (None, db)
  | Some session =>
      let session' := set_brief session (spread (brief session) updates) in
      (Some session', <[sessionId := session']> db)
  end.

Definition addApproval (sessionId : string) (approval : Approval)
    (db : gmap string Session) : option Session * gmap string Session :=
  match db !! sessionId with
  | None => (None, db)
  | Some session =>
      let session' := push_approval session approval in
      (Some session', <[sessionId := session']> db)
  end.

End DbStorage.

(** ** The socket, the exceptions and the handler monad *)

Inductive outbound : Type :=
| CALL_FINISHED (sessionId : string)
| TODO_PREVIEW (items : list string)
| PONG (ts : value)
| ERROR (error : string).

(** What the handler does to its socket, in order: [ws.send(JSON.stringify m)]
    and [ws.close(code, reason)]. *)
Inductive effect : Type :=
| Send (m : outbound)
| Close (code : Z) (reason : string).

Inductive exn : Type :=
| SyntaxError (msg : string)
| TypeError (msg : string).

(** [String(error)]. *)
Definition String_of_error (e : exn) : string :=
  match e with
  | SyntaxError msg => "SyntaxError: " +:+ msg
  | TypeError msg => "TypeError: " +:+ msg
  end.

(** The store shared by all connections and the trace of one socket. *)
Record world : Type := World {
  db : gmap string Session;
  wire : list effect
}.

Definition M (A : Type) : Type := world → (exn + A) * world.

#[export] Instance M_ret : MRet M := λ A a w, (inr a, w).

#[export] Instance M_bind : MBind M := λ A B f m w,
  match m w with
  | (inl e, w') => (inl e, w')
  | (inr a, w') => f a w'
  end.

Definition throw {A : Type} (e : exn) : M A := λ w, (inl e, w).

(** [try { body } catch (error) { handler }]: the handler runs in the state the
    body left behind. *)
Definition try_catch (body : M unit) (handler : exn → M unit) : M unit := λ w,
  match body w with
  | (inl e, w') => handler e w'
  | (inr tt, w') => (inr tt, w')
  end.

(** A call of a [storage] method, its result handed on. *)
Definition storage {A : Type} (op : gmap string Session → A * gmap string Session)
  : M A := λ w,
  let '(a, db') := op (db w) in (inr a, {| db := db'; wire := wire w |}).

Definition storage_getSession (id : string) : M (option Session) := λ w,
  (inr (DbStorage.getSession id (db w)), w).

Definition ws_send (m : outbound) : M unit := λ w,
  (inr tt, {| db := db w; wire := wire w ++ [Send m] |}).

Definition ws_close (code : Z) (reason : string) : M unit := λ w,
  (inr tt, {| db := db w; wire := wire w ++ [Close code reason] |}).

(** Lifting of the partial operations on values; the texts of the errors are
    those of V8. *)
Definition get (v : value) (k : string) : M value :=
  match prop v k with
  | Some x => mret x
  | None =>
      throw (TypeError ("Cannot read properties of " +:+
                        default "" (ToString v) +:+ " (reading '" +:+ k +:+ "')"))
  end.

Definition template (v : value) : M string :=
  match ToString v with
  | Some s => mret s
  | None => throw (TypeError "Cannot convert object to primitive value")
  end.

(** [noteMessage.slice(0, 100)]: strings and arrays have the method.  The
    result only goes to the log. *)
Definition slice_0_100 (v : value) : M value :=
  match v with
  | VStr s => mret (VStr (String.substring 0 100 s))
  | VArr items => mret (VArr (firstn 100 items))
  | VUndefined | VNull =>
      throw (TypeError ("Cannot read properties of " +:+
                        default "" (ToString v) +:+ " (reading 'slice')"))
  | _ => throw (TypeError "noteMessage.slice is not a function")
  end.

(** ** Inbound frames *)

(** The outcome of [JSON.parse(data.toString())]. *)
Inductive frame : Type :=
| Malformed (why : string)
| Json (v : value).

Definition JSON_parse (data : frame) : M value :=
  match data with
  | Malformed why => throw (SyntaxError why)
  | Json v => mret v
  end.

(** The literal list of the fallback [TODO_PREVIEW]. *)
Definition fallback_items : list string :=
  [ "Review and finalize painting style preferences";
    "Confirm color palette selections";
    "Schedule initial consultation call";
    "Review project timeline and milestones";
    "Prepare room measurements and photos" ].

(** ** The message handler of a connection bound to [sessionId] *)

(** The four branches of the [if]/[else if] chain on [message.type], then the
    chain itself.  Calls of [log] are left out, except where evaluating the
    argument can throw. *)

Definition on_UI_RESPONSE (sessionId : string) (now : Z) (message : value) : M unit :=
  p ← get message "promptId";
  ps ← template p;
  sel ← get message "selectedOptionId";
  ss ← template sel;
  let approval := {| ts := now; text := "UI_RESPONSE " +:+ ps +:+ " -> " +:+ ss |} in
  storage (DbStorage.addApproval sessionId approval);;
  match p with
  | VStr received =>
      let promptId := toLowerCase received in
      if startsWith promptId "style" then
        storage (DbStorage.updateBrief sessionId (only_style sel));; mret tt
      else if startsWith promptId "palette" then
        storage (DbStorage.updateBrief sessionId (only_palette sel));; mret tt
      else if startsWith promptId "finish" then
        storage (DbStorage.updateBrief sessionId (only_finish sel));; mret tt
      else
        currentSession ← storage_getSession sessionId;
        match currentSession with
        | Some current =>
            let constraints' := <[received := sel]> (constraints (brief current)) in
            storage (DbStorage.updateBrief sessionId (only_constraints constraints'));;
            mret tt
        | None => mret tt
        end
  | VUndefined | VNull =>
      throw (TypeError ("Cannot read properties of " +:+
                        default "" (ToString p) +:+ " (reading 'toLowerCase')"))
  | _ => throw (TypeError "message.promptId.toLowerCase is not a function")
  end.

Definition on_TODO_CONFIRM (sessionId : string) (now : Z) (message : value) : M unit :=
  ok ← get message "ok";
  oks ← template ok;
  let approval := {| ts := now; text := "TODO_CONFIRM ok=" +:+ oks |} in
  storage (DbStorage.addApproval sessionId approval);;
  if truthy ok then
    ws_send (CALL_FINISHED sessionId);;
    ws_close 1000 "Call finished"
  else
    ws_send (TODO_PREVIEW fallback_items).

Definition on_AGENT_NOTE (sessionId : string) (now : Z) (message : value) : M unit :=
  m ← get message "message";
  let noteMessage := if truthy m then m else VStr "" in
  if truthy noteMessage then
    ns ← template noteMessage;
    let approval := {| ts := now; text := "AGENT_NOTE: " +:+ ns |} in
    storage (DbStorage.addApproval sessionId approval);;
    cut ← slice_0_100 noteMessage;
    template cut;; mret tt
  else mret tt.

Definition on_PING (message : value) : M unit :=
  t ← get message "ts";
  ws_send (PONG t);;
  template t;; mret tt.

(** The body of the [try] block. *)
Definition handle (sessionId : string) (now : Z) (data : frame) : M unit :=
  message ← JSON_parse data;
  type ← get message "type";
  if is_str type "UI_RESPONSE" then on_UI_RESPONSE sessionId now message
  else if is_str type "TODO_CONFIRM" then on_TODO_CONFIRM sessionId now message
  else if is_str type "AGENT_NOTE" then on_AGENT_NOTE sessionId now message
  else if is_str type "PING" then on_PING message
  else mret tt.

(** [ws.on("message", ...)]: the [try] block and its [catch]. *)
Definition on_message (sessionId : string) (now : Z) (data : frame) : M unit :=
  try_catch (handle sessionId now data)
            (λ error, ws_send (ERROR (String_of_error error))).

(** [wss.on("connection", ...)]: [sessionId] is the query parameter, [None]
    when the URL has none; the empty string is falsy and rejected as well.
    Otherwise the session is loaded or created. *)
Definition on_connection (sessionId : option string) (now : Z) : M unit :=
  match sessionId with
  | None | Some EmptyString => ws_close 1008 "Missing sessionId parameter"
  | Some id =>
      session ← storage_getSession id;
      match session with
      | Some _ => mret tt
      | None => storage (DbStorage.createSession id now);; mret tt
      end
  end.

(** The frames that the socket hands to the handler, each with the clock at
    its arrival.  The handler stays registered for the life of the socket and
    looks at no state of the socket: whatever is delivered is handled. *)
Fixpoint serve (sessionId : string) (frames : list (Z * frame)) : M unit :=
  match frames with
  | [] => mret tt
  | (now, data) :: rest => on_message sessionId now data;; serve sessionId rest
  end.

(** The world a computation leaves behind. *)
Definition after {A : Type} (m : M A) (w : world) : world := (m w).2.

Definition threw {A : Type} (m : M A) (w : world) : option exn :=
  match (m w).1 with
  | inl e => Some e
  | inr _ => None
  end.

(** * Vocabulary of the statements *)

(** ** Sample states, after the end-to-end scenario of the specification *)

(** The session that connecting with [sessionId = "abc123"] creates. *)
Definition fresh_abc123 : Session :=
  {| session_id := "abc123"; createdAt := 1700000000000; messages := [];
     brief := empty_brief; todos := []; approvals := [] |}.

(** The same session once a mood has been recorded under [constraints]. *)
Definition moody_abc123 : Session :=
  set_brief fresh_abc123
    (spread empty_brief (only_constraints {[ "mood" := VStr "calm" ]})).

Definition world_of (s : Session) : world :=
  {| db := {[ session_id s := s ]}; wire := [] |}.

(** ** Briefs, sessions and frames named in the statements *)

(** How one key of the brief relates to the same key of the updates. *)
Definition replaced {A : Type} (old : A) (update : option A) (new : A) : Prop :=
  match update with
  | Some x => new = x
  | None => new = old
  end.

Definition replaced_wholesale (old : PaintingBrief) (u : Partial.t)
    (new : PaintingBrief) : Prop :=
  replaced (style old) (Partial.style u) (style new) ∧
  replaced (palette old) (Partial.palette u) (palette new) ∧
  replaced (finish old) (Partial.finish u) (finish new) ∧
  replaced (vibe old) (Partial.vibe u) (vibe new) ∧
  replaced (rooms old) (Partial.rooms u) (rooms new) ∧
  replaced (constraints old) (Partial.constraints u) (constraints new) ∧
  replaced (timeline old) (Partial.timeline u) (timeline new) ∧
  replaced (budget old) (Partial.budget u) (budget new) ∧
  replaced (openQuestions old) (Partial.openQuestions u) (openQuestions new).

(** The three scalar fields that a [promptId] can stand for, and their
    words. *)
Inductive scalar : Type := Style | Palette | Finish.

Definition word (f : scalar) : string :=
  match f with
  | Style => "style"
  | Palette => "palette"
  | Finish => "finish"
  end.

(** The brief with one scalar field replaced and with one constraint set;
    every other field is copied. *)
Definition with_scalar (f : scalar) (v : value) (b : PaintingBrief) : PaintingBrief :=
  match f with
  | Style =>
      {| style := v; palette := palette b; finish := finish b; vibe := vibe b;
         rooms := rooms b; constraints := constraints b; timeline := timeline b;
         budget := budget b; openQuestions := openQuestions b |}
  | Palette =>
      {| style := style b; palette := v; finish := finish b; vibe := vibe b;
         rooms := rooms b; constraints := constraints b; timeline := timeline b;
         budget := budget b; openQuestions := openQuestions b |}
  | Finish =>
      {| style := style b; palette := palette b; finish := v; vibe := vibe b;
         rooms := rooms b; constraints := constraints b; timeline := timeline b;
         budget := budget b; openQuestions := openQuestions b |}
  end.

Definition with_constraint (k : string) (v : value) (b : PaintingBrief) : PaintingBrief :=
  {| style := style b; palette := palette b; finish := finish b; vibe := vibe b;
     rooms := rooms b; constraints := <[k := v]> (constraints b);
     timeline := timeline b; budget := budget b;
     openQuestions := openQuestions b |}.

(** The session after a handled [UI_RESPONSE]: one approval more and the
    brief [b]. *)
Definition answered (s : Session) (now : Z) (p sel : string) (b : PaintingBrief)
  : Session :=
  {| session_id := session_id s; createdAt := createdAt s;
     messages := messages s; brief := b; todos := todos s;
     approvals := approvals s ++
       [ {| ts := now; text := "UI_RESPONSE " +:+ p +:+ " -> " +:+ sel |} ] |}.

Definition field (f : scalar) (b : PaintingBrief) : value :=
  match f with
  | Style => style b
  | Palette => palette b
  | Finish => finish b
  end.

(** From [old] to [new] the scalar [f] became [v] and nothing else moved. *)
Definition only_scalar_changed (f : scalar) (v : value) (old new : PaintingBrief)
  : Prop :=
  field f new = v ∧
  (∀ g, g ≠ f → field g new = field g old) ∧
  vibe new = vibe old ∧
  rooms new = rooms old ∧
  constraints new = constraints old ∧
  timeline new = timeline old ∧
  budget new = budget old ∧
  openQuestions new = openQuestions old.

(** From [old] to [new] the constraint [k] became [v] and nothing else moved. *)
Definition only_constraint_changed (k : string) (v : value) (old new : PaintingBrief)
  : Prop :=
  constraints new !! k = Some v ∧
  (∀ k', k' ≠ k → constraints new !! k' = constraints old !! k') ∧
  style new = style old ∧
  palette new = palette old ∧
  finish new = finish old ∧
  vibe new = vibe old ∧
  rooms new = rooms old ∧
  timeline new = timeline old ∧
  budget new = budget old ∧
  openQuestions new = openQuestions old.

(** The scalar that a [promptId] stands for, by the prefix of its lowercase
    form. *)
Definition classify (promptId : string) : option scalar :=
  let lowered := toLowerCase promptId in
  if startsWith lowered "style" then Some Style
  else if startsWith lowered "palette" then Some Palette
  else if startsWith lowered "finish" then Some Finish
  else None.

(** The wire form [{type: "UI_RESPONSE", promptId, selectedOptionId}]. *)
Definition UI_RESPONSE (promptId selectedOptionId : string) : value :=
  VObj [ ("type", VStr "UI_RESPONSE"); ("promptId", VStr promptId);
         ("selectedOptionId", VStr selectedOptionId) ].

(** The session with one approval more. *)
Definition approved (s : Session) (now : Z) (line : string) : Session :=
  {| session_id := session_id s; createdAt := createdAt s;
     messages := messages s; brief := brief s; todos := todos s;
     approvals := approvals s ++ [ {| ts := now; text := line |} ] |}.

(** The wire form [{type: "TODO_CONFIRM", ok}]. *)
Definition TODO_CONFIRM (ok : bool) : value :=
  VObj [ ("type", VStr "TODO_CONFIRM"); ("ok", VBool ok) ].

(** A computation is oblivious of the socket when the trace so far has no
    influence on what it does: it only appends to it. *)
Definition oblivious {A : Type} (m : M A) : Prop :=
  ∀ w, m w =
       let r := m {| db := db w; wire := [] |} in
       (r.1, {| db := db r.2; wire := wire w ++ wire r.2 |}).

Definition known_types : list string :=
  [ "UI_RESPONSE"; "TODO_CONFIRM"; "AGENT_NOTE"; "PING" ].

(** The session with the approvals [added] appended and the brief [b]. *)
Definition grown (s : Session) (added : list Approval) (b : PaintingBrief) : Session :=
  {| session_id := session_id s; createdAt := createdAt s;
     messages := messages s; brief := b; todos := todos s;
     approvals := approvals s ++ added |}.

(** From [w] to [w'] the bound session grew by [added] and took the brief [b],
    every other session stayed, and [es] was done to the socket. *)
Definition shaped (sessionId : string) (s : Session) (w : world)
    (added : list Approval) (b : PaintingBrief) (es : list effect) (w' : world)
  : Prop :=
  db w' = <[sessionId := grown s added b]> (db w) ∧ wire w' = wire w ++ es.

(** The frames on which the handler records an approval, if it gets through
    them: [UI_RESPONSE], [TODO_CONFIRM], and [AGENT_NOTE] with a truthy
    [message]. *)
Definition records_approval (data : frame) : bool :=
  match data with
  | Malformed _ => false
  | Json message =>
      match prop message "type" with
      | None => false
      | Some type =>
          is_str type "UI_RESPONSE" || is_str type "TODO_CONFIRM" ||
          (is_str type "AGENT_NOTE" &&
           truthy (default VUndefined (prop message "message")))
      end
  end.

Definition is_pong (e : effect) : Prop := ∃ t, e = Send (PONG t).

(** The wire forms [{type: "AGENT_NOTE", message}] and [{type: "PING", ts}]. *)
Definition AGENT_NOTE (message : string) : value :=
  VObj [ ("type", VStr "AGENT_NOTE"); ("message", VStr message) ].

Definition PING (ts : string) : value :=
  VObj [ ("type", VStr "PING"); ("ts", VNum ts) ].

(** A message of one of the four inbound forms of the wire format, with fields
    of the types the format gives them. *)
Definition well_typed (message : value) : Prop :=
  (prop message "type" = Some (VStr "UI_RESPONSE") ∧
   ∃ p sel, prop message "promptId" = Some (VStr p) ∧
            prop message "selectedOptionId" = Some (VStr sel)) ∨
  (prop message "type" = Some (VStr "TODO_CONFIRM") ∧
   ∃ ok, prop message "ok" = Some (VBool ok)) ∨
  (prop message "type" = Some (VStr "AGENT_NOTE") ∧
   ∃ note, prop message "message" = Some (VStr note)) ∨
  (prop message "type" = Some (VStr "PING") ∧
   ∃ t, prop message "ts" = Some (VNum t)).

(** ** More vocabulary: the store and whole runs of the handler *)

(** Every session sits in the store under its own id. *)
Definition keyed (store : gmap string Session) : Prop :=
  ∀ k s, store !! k = Some s → session_id s = k.

(** No key is present in both updates. *)
Definition disjoint_keys (u1 u2 : Partial.t) : Prop :=
  (Partial.style u1 = None ∨ Partial.style u2 = None) ∧
  (Partial.palette u1 = None ∨ Partial.palette u2 = None) ∧
  (Partial.finish u1 = None ∨ Partial.finish u2 = None) ∧
  (Partial.vibe u1 = None ∨ Partial.vibe u2 = None) ∧
  (Partial.rooms u1 = None ∨ Partial.rooms u2 = None) ∧
  (Partial.constraints u1 = None ∨ Partial.constraints u2 = None) ∧
  (Partial.timeline u1 = None ∨ Partial.timeline u2 = None) ∧
  (Partial.budget u1 = None ∨ Partial.budget u2 = None) ∧
  (Partial.openQuestions u1 = None ∨ Partial.openQuestions u2 = None).

(** The session that [createSession] builds. *)
Definition empty_session (id : string) (now : Z) : Session :=
  {| session_id := id; createdAt := now; messages := [];
     brief := {| style := VNull; palette := VNull; finish := VNull;
                 vibe := []; rooms := []; constraints := ∅;
                 timeline := VNull; budget := VNull; openQuestions := [] |};
     todos := []; approvals := [] |}.

(** What one frame can make of the brief: nothing, one scalar replaced, or one
    constraint set. *)
Definition brief_step (old new : PaintingBrief) : Prop :=
  new = old ∨ (∃ f v, new = with_scalar f v old) ∨ (∃ k v, new = with_constraint k v old).

(** The fields of the brief that no inbound message addresses. *)
Definition same_rest (old new : PaintingBrief) : Prop :=
  vibe new = vibe old ∧ rooms new = rooms old ∧ timeline new = timeline old ∧
  budget new = budget old ∧ openQuestions new = openQuestions old.

(** The fields of a session outside its brief and its approvals. *)
Definition same_identity (old new : Session) : Prop :=
  session_id new = session_id old ∧ createdAt new = createdAt old ∧
  messages new = messages old ∧ todos new = todos old.

(** What the handler does to the socket for one frame, whatever was done
    before. *)
Definition effects_of (sessionId : string) (now : Z) (data : frame)
    (store : gmap string Session) : list effect :=
  wire (after (on_message sessionId now data) {| db := store; wire := [] |}).

(** The menu of the handler: all it can do to the socket for one frame. *)
Inductive on_the_menu (sessionId : string) : list effect → Prop :=
| menu_nothing : on_the_menu sessionId []
| menu_pong t : on_the_menu sessionId [ Send (PONG t) ]
| menu_preview : on_the_menu sessionId [ Send (TODO_PREVIEW fallback_items) ]
| menu_finish :
    on_the_menu sessionId [ Send (CALL_FINISHED sessionId); Close 1000 "Call finished" ]
| menu_error e : on_the_menu sessionId [ Send (ERROR e) ]
| menu_pong_error t e : on_the_menu sessionId [ Send (PONG t); Send (ERROR e) ].

(** How the [try] block can end and what it has done to the socket by then:
    it returns or throws with nothing sent, or after the [PONG] of a [PING];
    it returns after the fallback [TODO_PREVIEW], or after [CALL_FINISHED]
    and the close. *)
Inductive body_outcome (sessionId : string) : exn + unit → list effect → Prop :=
| body_quiet r : body_outcome sessionId r []
| body_pong r t : body_outcome sessionId r [ Send (PONG t) ]
| body_preview :
    body_outcome sessionId (inr tt) [ Send (TODO_PREVIEW fallback_items) ]
| body_finish :
    body_outcome sessionId (inr tt)
      [ Send (CALL_FINISHED sessionId); Close 1000 "Call finished" ].

(** * The HTTP routes and the tables behind them *)

(** The tables [users], [auth_sessions] and [call_logs] live in the database.
    A table is the list of its rows in insertion order, or a map where a
    unique column is its only access path; the values that the database
    supplies on insert (the serial id, [defaultNow()]) are arguments, and a
    violated unique constraint is the error that the insert throws. *)

Module User.
Record t : Type := {
  id : Z;
  email : string;
  passwordHash : string;
  accountType : string;
  createdAt : Z
}.
End User.

(** [InsertUser]: [accountType] may be left out. *)
Module InsertUser.
Record t : Type := {
  email : string;
  passwordHash : string;
  accountType : option string
}.
End InsertUser.

Module CallLog.
Record t : Type := {
  id : Z;
  userId : option Z;
  userEmail : option string;
  title : string;
  summary : option string;
  notes : option string;
  style : option string;
  palette : option string;
  finish : option string;
  createdAt : Z
}.
End CallLog.

(** [InsertCallLog]: every column but [title] may be [null] or left out. *)
Module InsertCallLog.
Record t : Type := {
  userId : option Z;
  userEmail : option string;
  title : string;
  summary : option string;
  notes : option string;
  style : option string;
  palette : option string;
  finish : option string
}.
End InsertCallLog.

Inductive db_result (A : Type) : Type :=
| Db_ok (a : A)
| Db_error.
Arguments Db_ok {A} a.
Arguments Db_error {A}.

(** [x || null] on a number and on a string. *)
Definition number_or_null (x : option Z) : option Z :=
  match x with
  | Some 0 => None
  | _ => x
  end.

Definition string_or_null (x : option string) : option string :=
  match x with
  | Some EmptyString => None
  | _ => x
  end.


(** [header.replace(pattern, '')]: the first occurrence of the pattern, if
    any, is cut out. *)
Fixpoint remove_first (pattern s : string) : string :=
  if String.prefix pattern s
  then String.substring (String.length pattern)
         (String.length s - String.length pattern) s
  else match s with
       | EmptyString => EmptyString
       | String c rest => String c (remove_first pattern rest)
       end.

(** The methods of [DbStorage] that go to the database. *)
Module Storage.

Definition getUserByEmail (email : string) (users : list User.t) : option User.t :=
  find (λ u, String.eqb (User.email u) (toLowerCase email)) users.

Definition getUserById (id : Z) (users : list User.t) : option User.t :=
  find (λ u, Z.eqb (User.id u) id) users.

(** [new_id] and [now] are what the database fills in; the insert fails when
    the email, lowercased, is already there ([unique()]). *)
Definition createUser (userData : InsertUser.t) (new_id now : Z)
    (users : list User.t) : db_result (User.t * list User.t) :=
  let row :=
    {| User.id := new_id;
       User.email := toLowerCase (InsertUser.email userData);
       User.passwordHash := InsertUser.passwordHash userData;
       User.accountType :=
         default "personal" (string_or_null (InsertUser.accountType userData));
       User.createdAt := now |} in
  if existsb (λ u, String.eqb (User.email u) (User.email row)) users
  then Db_error
  else Db_ok (row, users ++ [row]).

(** [token] is the value of [randomBytes(32).toString('hex')]; the insert
    fails when the token is already there ([unique()]). *)
Definition createAuthSession (token : string) (userId : Z)
    (authSessions : gmap string Z) : db_result (gmap string Z) :=
  match authSessions !! token with
  | Some _ => Db_error
  | None => Db_ok (<[token := userId]> authSessions)
  end.

Definition getAuthSession (token : string) (authSessions : gmap string Z)
  : option Z := authSessions !! token.

Definition deleteAuthSession (token : string) (authSessions : gmap string Z)
  : gmap string Z := delete token authSessions.

(** The [notes] of [logData] are not among the values inserted; the column
    is nullable and has no default. *)
Definition createCallLog (logData : InsertCallLog.t) (new_id now : Z)
    (callLogs : list CallLog.t) : CallLog.t * list CallLog.t :=
  let row :=
    {| CallLog.id := new_id;
       CallLog.userId := number_or_null (InsertCallLog.userId logData);
       CallLog.userEmail := string_or_null (InsertCallLog.userEmail logData);
       CallLog.title := InsertCallLog.title logData;
       CallLog.summary := string_or_null (InsertCallLog.summary logData);
       CallLog.notes := None;
       CallLog.style := string_or_null (InsertCallLog.style logData);
       CallLog.palette := string_or_null (InsertCallLog.palette logData);
       CallLog.finish := string_or_null (InsertCallLog.finish logData);
       CallLog.createdAt := now |} in
  (row, callLogs ++ [row]).

End Storage.

(** What a route answers: [res.status(code).json(body)]. *)
Inductive payload : Type :=
| Error_body (error : string)
| Ok_body
| User_body (id : Z) (email accountType : string)
| Token_body (token : string) (id : Z) (email accountType : string)
| CallLog_body (row : CallLog.t)
| CallLogs_body (rows : list CallLog.t).

Inductive reply : Type := Reply (code : Z) (body : payload).


(** The two places a request can carry a token: the [Authorization] header
    and the cookie [token]. *)
Record request : Type := {
  authorization : option string;
  cookie_token : option string
}.

(** [authMiddleware]: the user it puts on the request, if any.  It never
    answers itself: in every case the next handler runs. *)
Definition authMiddleware (req : request) (authSessions : gmap string Z)
    (users : list User.t) : option User.t :=
  let from_header := remove_first "Bearer " <$> authorization req in
  let token :=
    match from_header with
    | Some (String c rest) => Some (String c rest)
    | _ => cookie_token req
    end in
  match token with
  | None | Some EmptyString => None
  | Some token =>
      match Storage.getAuthSession token authSessions with
      | None => None
      | Some userId => Storage.getUserById userId users
      end
  end.

(** [POST /api/auth/logout]: only the header is looked at. *)
Definition logout_route (req : request) (authSessions : gmap string Z)
  : reply * gmap string Z :=
  match remove_first "Bearer " <$> authorization req with
  | Some (String c rest) =>
      (Reply 200 Ok_body, Storage.deleteAuthSession (String c rest) authSessions)
  | _ => (Reply 200 Ok_body, authSessions)
  end.

(** [GET /api/auth/me]. *)
Definition me_route (user : option User.t) : reply :=
  match user with
  | None => Reply 401 (Error_body "Not authenticated")
  | Some u => Reply 200 (User_body (User.id u) (User.email u) (User.accountType u))
  end.

(** [GET /api/call-logs]; [logs] is what [getCallLogs] reads. *)
Definition get_call_logs_route (user : option User.t) (logs : list CallLog.t) : reply :=
  match user with
  | None => Reply 401 (Error_body "Not authenticated")
  | Some u =>
      if String.eqb (User.accountType u) "business"
      then Reply 200 (CallLogs_body logs)
      else Reply 403 (Error_body "Business account required")
  end.





Record LoginRequest : Type := {
  login_email : string;
  login_password : string
}.


(** [POST /api/auth/login]; [verifyPassword] is [bcrypt.compare]. *)
Definition login_route (verifyPassword : string → string → bool)
    (parsed : option LoginRequest) (token : string)
    (users : list User.t) (authSessions : gmap string Z)
  : reply * gmap string Z :=
  match parsed with
  | None => (Reply 400 (Error_body "Invalid request body"), authSessions)
  | Some r =>
      match Storage.getUserByEmail (login_email r) users with
      | None => (Reply 401 (Error_body "Invalid email or password"), authSessions)
      | Some user =>
          if verifyPassword (login_password r) (User.passwordHash user) then
            match Storage.createAuthSession token (User.id user) authSessions with
            | Db_error => (Reply 500 (Error_body "Failed to login"), authSessions)
            | Db_ok authSessions' =>
                (Reply 200 (Token_body token (User.id user) (User.email user)
                              (User.accountType user)),
                 authSessions')
            end
          else (Reply 401 (Error_body "Invalid email or password"), authSessions)
      end
  end.


(** ** Sample rows, after the demo data of the store *)

Definition demo_business : User.t :=
  {| User.id := 2; User.email := "demobusiness@contrahackathon.com";
     User.passwordHash := "$2a$10$business"; User.accountType := "business";
     User.createdAt := 1700000000000 |}.

Definition demo_personal : User.t :=
  {| User.id := 1; User.email := "democlient@contrahackathon.com";
     User.passwordHash := "$2a$10$client"; User.accountType := "personal";
     User.createdAt := 1700000000000 |}.

Definition demo_users : list User.t := [ demo_personal; demo_business ].

Definition demo_tokens : gmap string Z := {[ "5f2a9c" := 2 ]}.

(** * The client's [AuthProvider] *)

(** The state of the provider once an operation has settled: the two React
    states [user] and [token] (typed [User | null] and [string | null], but
    holding whatever the server sent), [isLoading], and the entry
    [authToken] of [localStorage].  The names read off a response, [error],
    [token] and [user], are on no prototype. *)
Module AuthProvider.













End AuthProvider.

(** ** Demo data *)

(** [getCallLogsByUserId], without the ordering of the query: its only
    caller counts the rows. *)
Definition getCallLogsByUserId (userId : Z) (callLogs : list CallLog.t)
  : list CallLog.t :=
  List.filter (λ row, match CallLog.userId row with
                      | Some id => Z.eqb id userId
                      | None => false
                      end) callLogs.

(** Title, summary, style, palette and finish of the five mock calls. *)
Definition mockCalls : list (string * string * string * string * string) :=
  [ ("Abstract Living Room Piece", "Modern abstract for main living area",
     "bold", "warm", "matte");
    ("Bedroom Serenity Commission", "Calming tones for master bedroom",
     "soft", "cool", "satin");
    ("Office Statement Art", "Professional piece for home office",
     "clean", "neutral", "glossy");
    ("Kitchen Accent Painting", "Vibrant piece for kitchen wall",
     "playful", "warm", "matte");
    ("Entryway Welcome Art", "First impression piece",
     "moody", "neutral", "satin") ].

(** The loop over the mock calls; [log_id i] and [log_now i] are the id and
    the time that the database gives to the insert number [i]. *)
Fixpoint insert_calls (businessUser : User.t)
    (calls : list (string * string * string * string * string))
    (i : nat) (log_id log_now : nat → Z) (callLogs : list CallLog.t)
  : list CallLog.t :=
  match calls with
  | [] => callLogs
  | (title, summary, style, palette, finish) :: rest =>
      insert_calls businessUser rest (S i) log_id log_now
        (Storage.createCallLog
           {| InsertCallLog.userId := Some (User.id businessUser);
              InsertCallLog.userEmail := Some (User.email businessUser);
              InsertCallLog.title := title;
              InsertCallLog.summary := Some summary;
              InsertCallLog.notes := None;
              InsertCallLog.style := Some style;
              InsertCallLog.palette := Some palette;
              InsertCallLog.finish := Some finish |}
           (log_id i) (log_now i) callLogs).2
  end.

(** What the database and [hashPassword] supply to one run of
    [seedDemoData]. *)
Record seed_supply : Type := {
  hash_client : string;
  hash_business : string;
  id_client : Z;
  id_business : Z;
  now_client : Z;
  now_business : Z;
  log_id : nat → Z;
  log_now : nat → Z
}.

(** [seedDemoData]: an insert that throws ends the run, the [catch] only
    logs. *)
Definition seedDemoData (supply : seed_supply)
    (users : list User.t) (callLogs : list CallLog.t)
  : list User.t * list CallLog.t :=
  let after_personal :=
    match Storage.getUserByEmail "democlient@contrahackathon.com" users with
    | Some _ => Db_ok users
    | None =>
        match Storage.createUser
                {| InsertUser.email := "democlient@contrahackathon.com";
                   InsertUser.passwordHash := hash_client supply;
                   InsertUser.accountType := Some "personal" |}
                (id_client supply) (now_client supply) users with
        | Db_ok (_, users') => Db_ok users'
        | Db_error => Db_error
        end
    end in
  match after_personal with
  | Db_error => (users, callLogs)
  | Db_ok users1 =>
      let after_business :=
        match Storage.getUserByEmail "demobusiness@contrahackathon.com" users1 with
        | Some businessExists => Db_ok (businessExists, users1)
        | None =>
            Storage.createUser
              {| InsertUser.email := "demobusiness@contrahackathon.com";
                 InsertUser.passwordHash := hash_business supply;
                 InsertUser.accountType := Some "business" |}
              (id_business supply) (now_business supply) users1
        end in
      match after_business with
      | Db_error => (users1, callLogs)
      | Db_ok (businessUser, users2) =>
          match getCallLogsByUserId (User.id businessUser) callLogs with
          | [] =>
              (users2,
               insert_calls businessUser mockCalls 0 (log_id supply)
                 (log_now supply) callLogs)
          | _ :: _ => (users2, callLogs)
          end
      end
  end.

(** * Properties *)

(** ** The brief-merge operation *)

Section Bound.
Variables (store : gmap string Session) (sessionId : string) (session : Session).
Hypothesis bound : store !! sessionId = Some session.

Lemma addApproval_bound (a : Approval) :
  DbStorage.addApproval sessionId a store =
  (Some (push_approval session a), <[sessionId := push_approval session a]> store).
Proof. unfold DbStorage.addApproval. now rewrite bound. Qed.

Lemma updateBrief_bound (u : Partial.t) :
  DbStorage.updateBrief sessionId u store =
  (Some (set_brief session (spread (brief session) u)),
   <[sessionId := set_brief session (spread (brief session) u)]> store).
Proof. unfold DbStorage.updateBrief. now rewrite bound. Qed.
End Bound.

Lemma spread_replaced_wholesale (b : PaintingBrief) (u : Partial.t) :
  replaced_wholesale b u (spread b u).
Proof.
  destruct u as [st pa fi vi ro co ti bu oq].
  unfold replaced_wholesale, replaced; simpl.
  destruct st, pa, fi, vi, ro, co, ti, bu, oq; simpl; repeat split.
Qed.

Lemma spread_idempotent (b : PaintingBrief) (u : Partial.t) :
  spread (spread b u) u = spread b u.
Proof.
  destruct u as [st pa fi vi ro co ti bu oq].
  unfold spread; simpl.
  destruct st, pa, fi, vi, ro, co, ti, bu, oq; reflexivity.
Qed.

(** C3, the claim as stated fails: [updateBrief] given [{ constraints: { light:
    "north" } }] on a brief whose constraints hold [mood] loses [mood]; the
    constraints are replaced, not merged. *)
Lemma updateBrief_constraints_not_merged :
  let u := only_constraints {[ "light" := VStr "north" ]} in
  let store := db (world_of moody_abc123) in
  constraints (brief moody_abc123) !! "mood" = Some (VStr "calm") ∧
  Partial.constraints u ≫= (λ c, c !! "mood") = None ∧
  (brief <$> (DbStorage.updateBrief "abc123" u store).2 !! "abc123")
    ≫= (λ b, constraints b !! "mood") = None.
Proof. vm_compute. repeat split. Qed.

(** C3, amended: [updateBrief] on a stored session replaces every key present
    in [updates] wholesale, [constraints] included (its new value is exactly
    [updates.constraints]), leaves the keys absent from [updates] untouched,
    and touches nothing else of the session; the session so changed is both
    returned and stored. *)
Theorem updateBrief_replaces_wholesale
    (store : gmap string Session) (sessionId : string) (session : Session)
    (updates : Partial.t) :
  store !! sessionId = Some session →
  ∃ session',
    DbStorage.updateBrief sessionId updates store =
      (Some session', <[sessionId := session']> store) ∧
    replaced_wholesale (brief session) updates (brief session') ∧
    approvals session' = approvals session ∧
    session_id session' = session_id session ∧
    createdAt session' = createdAt session ∧
    messages session' = messages session ∧
    todos session' = todos session.
Proof.
  intros Hb. eexists. split; [ apply updateBrief_bound, Hb |].
  split; [ apply spread_replaced_wholesale | repeat split ].
Qed.

Lemma updateBrief_replaces_wholesale_witness :
  db (world_of moody_abc123) !! "abc123" = Some moody_abc123 ∧
  ∃ session',
    DbStorage.updateBrief "abc123"
        (only_constraints {[ "light" := VStr "north" ]})
        (db (world_of moody_abc123)) =
      (Some session', <["abc123" := session']> (db (world_of moody_abc123))) ∧
    replaced_wholesale (brief moody_abc123)
      (only_constraints {[ "light" := VStr "north" ]}) (brief session') ∧
    approvals session' = approvals moody_abc123 ∧
    session_id session' = session_id moody_abc123 ∧
    createdAt session' = createdAt moody_abc123 ∧
    messages session' = messages moody_abc123 ∧
    todos session' = todos moody_abc123.
Proof.
  split; [ reflexivity |].
  apply (updateBrief_replaces_wholesale
           (db (world_of moody_abc123)) "abc123" moody_abc123).
  reflexivity.
Defined.

(** C9: the brief-merge operation is idempotent.  Applying the same updates a
    second time changes neither the brief, nor the session returned, nor the
    store; this holds for [{ ...brief, ...updates }] on briefs and for
    [updateBrief] on every store, whether or not the session exists. *)
Theorem updateBrief_idempotent
    (store : gmap string Session) (sessionId : string) (b : PaintingBrief)
    (updates : Partial.t) :
  spread (spread b updates) updates = spread b updates ∧
  DbStorage.updateBrief sessionId updates
    (DbStorage.updateBrief sessionId updates store).2 =
  DbStorage.updateBrief sessionId updates store.
Proof.
  split; [ apply spread_idempotent |].
  unfold DbStorage.updateBrief.
  destruct (store !! sessionId) as [s|] eqn:Hs; simpl.
  - rewrite lookup_insert_eq, insert_insert_eq.
    unfold set_brief; simpl. now rewrite spread_idempotent.
  - now rewrite Hs.
Qed.

(** ** Running the handler *)

Ltac unfold_handler :=
  unfold on_message, try_catch, handle, on_UI_RESPONSE, on_TODO_CONFIRM,
    on_AGENT_NOTE, on_PING, get, template, slice_0_100, storage,
    storage_getSession, ws_send, ws_close, throw, JSON_parse,
    DbStorage.getSession, mbind, M_bind, mret, M_ret;
  cbv beta.

Ltac crunch :=
  cbn [is_str String.eqb Ascii.eqb Bool.eqb ToString db wire fst snd truthy
       negb brief approvals push_approval set_brief].

(** When the [try] block returns, the [catch] does nothing. *)
Lemma on_message_returned sessionId now data w w' :
  handle sessionId now data w = (inr tt, w') →
  on_message sessionId now data w = (inr tt, w').
Proof. intros H. unfold on_message, try_catch. now rewrite H. Qed.

Lemma prefix_cons (a c : ascii) (u s : string) :
  String.prefix (String a u) (String c s) =
  if Ascii.ascii_dec a c then String.prefix u s else false.
Proof. reflexivity. Qed.

(** The three words exclude one another: they differ in their first letter,
    so the order of the tests in the handler does not matter. *)
Lemma startsWith_word_exclusive (s : string) (f g : scalar) :
  startsWith s (word f) = true → f ≠ g → startsWith s (word g) = false.
Proof.
  unfold startsWith. intros Hf Hne.
  destruct s as [|c s]; [ destruct g; reflexivity |].
  destruct f, g; try congruence; cbn [word] in *;
    rewrite prefix_cons in Hf |- *;
    destruct (Ascii.ascii_dec _ c) as [<-|]; try discriminate;
    destruct (Ascii.ascii_dec _ _); try discriminate; reflexivity.
Qed.

Section UI_RESPONSE.
Variables (sessionId : string) (now : Z) (message : value) (p sel : string).
Variables (w : world) (s : Session).
Hypothesis is_UI_RESPONSE : prop message "type" = Some (VStr "UI_RESPONSE").
Hypothesis has_promptId : prop message "promptId" = Some (VStr p).
Hypothesis has_selected : prop message "selectedOptionId" = Some (VStr sel).
Hypothesis bound : db w !! sessionId = Some s.

Lemma handle_scalar (f : scalar) :
  startsWith (toLowerCase p) (word f) = true →
  handle sessionId now (Json message) w =
  (inr tt,
   {| db := <[sessionId := answered s now p sel (with_scalar f (VStr sel) (brief s))]> (db w);
      wire := wire w |}).
Proof.
  intros Hf.
  assert (Hx : ∀ g, f ≠ g → startsWith (toLowerCase p) (word g) = false)
    by (intros g; now apply startsWith_word_exclusive).
  unfold_handler.
  rewrite is_UI_RESPONSE; crunch. rewrite has_promptId, has_selected; crunch.
  rewrite (addApproval_bound _ _ _ bound); crunch.
  destruct f;
    try (rewrite (Hx Style ltac:(congruence) : startsWith _ "style" = false));
    try (rewrite (Hx Palette ltac:(congruence) : startsWith _ "palette" = false));
    cbn [word] in Hf; rewrite Hf; crunch;
    rewrite (updateBrief_bound _ _ (push_approval s _)) by apply lookup_insert_eq;
    crunch; now rewrite insert_insert_eq.
Qed.

Lemma handle_constraint :
  startsWith (toLowerCase p) "style" = false →
  startsWith (toLowerCase p) "palette" = false →
  startsWith (toLowerCase p) "finish" = false →
  handle sessionId now (Json message) w =
  (inr tt,
   {| db := <[sessionId := answered s now p sel (with_constraint p (VStr sel) (brief s))]> (db w);
      wire := wire w |}).
Proof.
  intros H1 H2 H3.
  unfold_handler.
  rewrite is_UI_RESPONSE; crunch. rewrite has_promptId, has_selected; crunch.
  rewrite (addApproval_bound _ _ _ bound); crunch.
  rewrite H1, H2, H3; crunch. rewrite lookup_insert_eq; crunch.
  rewrite (updateBrief_bound _ _ (push_approval s _)) by apply lookup_insert_eq.
  crunch. now rewrite insert_insert_eq.
Qed.
End UI_RESPONSE.

(** ** [UI_RESPONSE] *)

Lemma with_scalar_only (f : scalar) (v : value) (b : PaintingBrief) :
  only_scalar_changed f v b (with_scalar f v b).
Proof.
  unfold only_scalar_changed.
  destruct f; simpl; repeat split; intros []; simpl; congruence.
Qed.

Lemma with_constraint_only (k : string) (v : value) (b : PaintingBrief) :
  only_constraint_changed k v b (with_constraint k v b).
Proof.
  unfold only_constraint_changed; simpl; repeat split.
  - apply lookup_insert_eq.
  - intros k' Hk. now apply lookup_insert_ne.
Qed.

Lemma classify_Some (p : string) (f : scalar) :
  classify p = Some f ↔ startsWith (toLowerCase p) (word f) = true.
Proof.
  unfold classify. split.
  - destruct (startsWith _ "style") eqn:H1; [ now intros [= <-] |].
    destruct (startsWith _ "palette") eqn:H2; [ now intros [= <-] |].
    destruct (startsWith _ "finish") eqn:H3; [ now intros [= <-] | discriminate ].
  - intros Hf.
    assert (Hx : ∀ g, f ≠ g → startsWith (toLowerCase p) (word g) = false)
      by (intros g; now apply startsWith_word_exclusive).
    destruct f;
      try (rewrite (Hx Style ltac:(congruence) : startsWith _ "style" = false));
      try (rewrite (Hx Palette ltac:(congruence) : startsWith _ "palette" = false));
      cbn [word] in Hf; now rewrite Hf.
Qed.

Lemma classify_None (p : string) :
  classify p = None ↔
  startsWith (toLowerCase p) "style" = false ∧
  startsWith (toLowerCase p) "palette" = false ∧
  startsWith (toLowerCase p) "finish" = false.
Proof.
  unfold classify.
  destruct (startsWith _ "style"), (startsWith _ "palette"),
    (startsWith _ "finish"); intuition congruence.
Qed.

Lemma lower_ascii_idempotent (c : ascii) : lower_ascii (lower_ascii c) = lower_ascii c.
Proof.
  destruct c as [[] [] [] [] [] [] [] []]; reflexivity.
Qed.

Lemma toLowerCase_idempotent (s : string) : toLowerCase (toLowerCase s) = toLowerCase s.
Proof.
  induction s as [|c s IH]; simpl; [ reflexivity |].
  now rewrite lower_ascii_idempotent, IH.
Qed.

(** C1: a [UI_RESPONSE] whose [promptId], lowercased, begins with "style",
    "palette" or "finish" replaces exactly that scalar field of the brief of
    the bound session by [selectedOptionId]; the other two scalars, [vibe],
    [rooms], [constraints], [timeline], [budget] and [openQuestions] keep
    their values. *)
Theorem UI_RESPONSE_replaces_one_scalar
    (sessionId : string) (now : Z) (message : value) (p sel : string)
    (w : world) (s : Session) (f : scalar) :
  prop message "type" = Some (VStr "UI_RESPONSE") →
  prop message "promptId" = Some (VStr p) →
  prop message "selectedOptionId" = Some (VStr sel) →
  db w !! sessionId = Some s →
  startsWith (toLowerCase p) (word f) = true →
  ∃ s', db (after (on_message sessionId now (Json message)) w) !! sessionId = Some s' ∧
        only_scalar_changed f (VStr sel) (brief s) (brief s').
Proof.
  intros Ht Hp Hs Hb Hf. unfold after.
  rewrite (on_message_returned _ _ _ _ _ (handle_scalar _ now _ _ _ _ _ Ht Hp Hs Hb f Hf)); simpl.
  eexists. split; [ apply lookup_insert_eq |]. apply with_scalar_only.
Qed.

Lemma UI_RESPONSE_replaces_one_scalar_witness :
  ∃ s', db (after (on_message "abc123" 1700000000007
                     (Json (UI_RESPONSE "palette_warm" "terracotta")))
                  (world_of moody_abc123)) !! "abc123" = Some s' ∧
        only_scalar_changed Palette (VStr "terracotta") (brief moody_abc123) (brief s').
Proof.
  apply (UI_RESPONSE_replaces_one_scalar "abc123" 1700000000007
           (UI_RESPONSE "palette_warm" "terracotta") "palette_warm" "terracotta"
           (world_of moody_abc123) moody_abc123 Palette); reflexivity.
Defined.

(** C2: a [UI_RESPONSE] whose [promptId], lowercased, begins with none of
    "style", "palette", "finish" sets exactly one key of [brief.constraints],
    the [promptId], to [selectedOptionId]: that key is added or overwritten,
    every other key keeps its value (or its absence), and so does every other
    field of the brief. *)
Theorem UI_RESPONSE_sets_one_constraint
    (sessionId : string) (now : Z) (message : value) (p sel : string)
    (w : world) (s : Session) :
  prop message "type" = Some (VStr "UI_RESPONSE") →
  prop message "promptId" = Some (VStr p) →
  prop message "selectedOptionId" = Some (VStr sel) →
  db w !! sessionId = Some s →
  startsWith (toLowerCase p) "style" = false →
  startsWith (toLowerCase p) "palette" = false →
  startsWith (toLowerCase p) "finish" = false →
  ∃ s', db (after (on_message sessionId now (Json message)) w) !! sessionId = Some s' ∧
        only_constraint_changed p (VStr sel) (brief s) (brief s').
Proof.
  intros Ht Hp Hs Hb H1 H2 H3. unfold after.
  rewrite (on_message_returned _ _ _ _ _ (handle_constraint _ now _ _ _ _ _ Ht Hp Hs Hb H1 H2 H3)); simpl.
  eexists. split; [ apply lookup_insert_eq |]. apply with_constraint_only.
Qed.

Lemma UI_RESPONSE_sets_one_constraint_witness :
  ∃ s', db (after (on_message "abc123" 1700000000007
                     (Json (UI_RESPONSE "light" "north")))
                  (world_of moody_abc123)) !! "abc123" = Some s' ∧
        only_constraint_changed "light" (VStr "north") (brief moody_abc123) (brief s').
Proof.
  apply (UI_RESPONSE_sets_one_constraint "abc123" 1700000000007
           (UI_RESPONSE "light" "north") "light" "north"
           (world_of moody_abc123) moody_abc123); reflexivity.
Defined.

(** C10: the [promptId] is classified on its lowercase form, so that two
    spellings that differ only in case are classified alike, while the key
    written to [brief.constraints] is the [promptId] as received.  If the
    lowercase form begins with one of the three words the scalar is replaced
    and [constraints] is untouched; otherwise [constraints] gains or
    overwrites the key [promptId]; in both cases every key other than the
    received [promptId], its lowercase form included when it differs, is left
    as it was. *)
Theorem UI_RESPONSE_classified_lowercase_stored_verbatim
    (sessionId : string) (now : Z) (message : value) (p sel : string)
    (w : world) (s : Session) :
  prop message "type" = Some (VStr "UI_RESPONSE") →
  prop message "promptId" = Some (VStr p) →
  prop message "selectedOptionId" = Some (VStr sel) →
  db w !! sessionId = Some s →
  ∃ s', db (after (on_message sessionId now (Json message)) w) !! sessionId = Some s' ∧
        classify p = classify (toLowerCase p) ∧
        brief s' = match classify p with
                   | Some f => with_scalar f (VStr sel) (brief s)
                   | None => with_constraint p (VStr sel) (brief s)
                   end ∧
        constraints (brief s') = match classify p with
                                 | Some _ => constraints (brief s)
                                 | None => <[p := VStr sel]> (constraints (brief s))
                                 end ∧
        ∀ k, k ≠ p → constraints (brief s') !! k = constraints (brief s) !! k.
Proof.
  intros Ht Hp Hs Hb. unfold after.
  assert (Hc : classify p = classify (toLowerCase p))
    by (unfold classify; now rewrite toLowerCase_idempotent).
  destruct (classify p) as [f|] eqn:Hf.
  - apply classify_Some in Hf.
    rewrite (on_message_returned _ _ _ _ _ (handle_scalar _ now _ _ _ _ _ Ht Hp Hs Hb f Hf)); simpl.
    eexists. split; [ apply lookup_insert_eq |]. simpl.
    repeat split; try assumption; destruct f; reflexivity.
  - apply classify_None in Hf. destruct Hf as (H1 & H2 & H3).
    rewrite (on_message_returned _ _ _ _ _ (handle_constraint _ now _ _ _ _ _ Ht Hp Hs Hb H1 H2 H3)); simpl.
    eexists. split; [ apply lookup_insert_eq |]. simpl.
    repeat split; try assumption.
    intros k Hk. now apply lookup_insert_ne.
Qed.

Lemma UI_RESPONSE_classified_lowercase_stored_verbatim_witness :
  ∃ s', db (after (on_message "abc123" 1700000000007
                     (Json (UI_RESPONSE "Mood_X" "calm")))
                  (world_of fresh_abc123)) !! "abc123" = Some s' ∧
        classify "Mood_X" = classify (toLowerCase "Mood_X") ∧
        brief s' = match classify "Mood_X" with
                   | Some f => with_scalar f (VStr "calm") (brief fresh_abc123)
                   | None => with_constraint "Mood_X" (VStr "calm") (brief fresh_abc123)
                   end ∧
        constraints (brief s') =
          match classify "Mood_X" with
          | Some _ => constraints (brief fresh_abc123)
          | None => <["Mood_X" := VStr "calm"]> (constraints (brief fresh_abc123))
          end ∧
        ∀ k, k ≠ "Mood_X" →
             constraints (brief s') !! k = constraints (brief fresh_abc123) !! k.
Proof.
  apply (UI_RESPONSE_classified_lowercase_stored_verbatim "abc123" 1700000000007
           (UI_RESPONSE "Mood_X" "calm") "Mood_X" "calm"
           (world_of fresh_abc123) fresh_abc123); reflexivity.
Defined.

(** The two spellings of the claim, run: ["STYLE_x"] sets [style] and leaves
    [constraints] empty; ["Mood_X"] is stored under ["Mood_X"], and nothing
    under ["mood_x"]. *)
Example UI_RESPONSE_STYLE_x_and_Mood_X :
  let run p sel := db (after (on_message "abc123" 1700000000007
                                (Json (UI_RESPONSE p sel)))
                             (world_of fresh_abc123)) !! "abc123" in
  (style ∘ brief <$> run "STYLE_x" "bold") = Some (VStr "bold") ∧
  (constraints ∘ brief <$> run "STYLE_x" "bold") = Some ∅ ∧
  (run "Mood_X" "calm" ≫= λ s', constraints (brief s') !! "Mood_X") = Some (VStr "calm") ∧
  (run "Mood_X" "calm" ≫= λ s', constraints (brief s') !! "mood_x") = None ∧
  (style ∘ brief <$> run "Mood_X" "calm") = Some VNull.
Proof. vm_compute. repeat split. Qed.

(** ** [TODO_CONFIRM] *)

Lemma handle_TODO_CONFIRM
    (sessionId : string) (now : Z) (message : value) (ok : bool)
    (w : world) (s : Session) :
  prop message "type" = Some (VStr "TODO_CONFIRM") →
  prop message "ok" = Some (VBool ok) →
  db w !! sessionId = Some s →
  handle sessionId now (Json message) w =
  (inr tt,
   {| db := <[sessionId :=
                approved s now ("TODO_CONFIRM ok=" +:+ (if ok then "true" else "false"))]>
              (db w);
      wire := wire w ++
        (if ok then [ Send (CALL_FINISHED sessionId); Close 1000 "Call finished" ]
         else [ Send (TODO_PREVIEW fallback_items) ]) |}).
Proof.
  intros Ht Hok Hb.
  unfold_handler.
  rewrite Ht; crunch. rewrite Hok; crunch.
  destruct ok; crunch;
    rewrite (addApproval_bound _ _ _ Hb); crunch;
    now rewrite <- ?app_assoc.
Qed.

(** C5: [TODO_CONFIRM] with [ok = false] on a bound session sends one message,
    a [TODO_PREVIEW] whose items are the five fixed sentences in their order,
    and does not close the connection: nothing else is done to the socket.
    The handler does not throw, and records the refusal as an approval. *)
Theorem TODO_CONFIRM_false_previews_fallback
    (sessionId : string) (now : Z) (message : value) (w : world) (s : Session) :
  prop message "type" = Some (VStr "TODO_CONFIRM") →
  prop message "ok" = Some (VBool false) →
  db w !! sessionId = Some s →
  let w' := after (on_message sessionId now (Json message)) w in
  wire w' = wire w ++
    [ Send (TODO_PREVIEW
              [ "Review and finalize painting style preferences";
                "Confirm color palette selections";
                "Schedule initial consultation call";
                "Review project timeline and milestones";
                "Prepare room measurements and photos" ]) ] ∧
  (∀ code reason, Close code reason ∉ drop (length (wire w)) (wire w')) ∧
  threw (handle sessionId now (Json message)) w = None ∧
  db w' !! sessionId = Some (approved s now "TODO_CONFIRM ok=false").
Proof.
  intros Ht Hok Hb w'.
  assert (Hrun := handle_TODO_CONFIRM _ now _ _ _ _ Ht Hok Hb).
  subst w'. unfold after, threw.
  rewrite (on_message_returned _ _ _ _ _ Hrun), Hrun. simpl.
  repeat split.
  - intros code reason. rewrite drop_app_length.
    intros Hin. apply list_elem_of_singleton in Hin. discriminate.
  - apply lookup_insert_eq.
Qed.

Lemma TODO_CONFIRM_false_previews_fallback_witness :
  let w' := after (on_message "abc123" 1700000000007 (Json (TODO_CONFIRM false)))
                  (world_of fresh_abc123) in
  wire w' = wire (world_of fresh_abc123) ++
    [ Send (TODO_PREVIEW
              [ "Review and finalize painting style preferences";
                "Confirm color palette selections";
                "Schedule initial consultation call";
                "Review project timeline and milestones";
                "Prepare room measurements and photos" ]) ] ∧
  (∀ code reason,
     Close code reason ∉ drop (length (wire (world_of fresh_abc123))) (wire w')) ∧
  threw (handle "abc123" 1700000000007 (Json (TODO_CONFIRM false)))
        (world_of fresh_abc123) = None ∧
  db w' !! "abc123" = Some (approved fresh_abc123 1700000000007 "TODO_CONFIRM ok=false").
Proof.
  apply (TODO_CONFIRM_false_previews_fallback "abc123" 1700000000007
           (TODO_CONFIRM false) (world_of fresh_abc123) fresh_abc123);
    reflexivity.
Defined.

(** ** The handler does not look at its socket *)

Lemma oblivious_ret {A : Type} (a : A) : oblivious (mret a).
Proof. intros [d es]. unfold mret, M_ret. simpl. now rewrite app_nil_r. Qed.

Lemma oblivious_throw {A : Type} (e : exn) : oblivious (@throw A e).
Proof. intros [d es]. unfold throw. simpl. now rewrite app_nil_r. Qed.

Lemma oblivious_bind {A B : Type} (m : M A) (f : A → M B) :
  oblivious m → (∀ a, oblivious (f a)) → oblivious (m ≫= f).
Proof.
  intros Hm Hf w. unfold mbind, M_bind.
  rewrite (Hm w).
  destruct (m {| db := db w; wire := [] |}) as [[e|a] w1]; simpl; [ reflexivity |].
  rewrite (Hf a {| db := db w1; wire := wire w ++ wire w1 |}), (Hf a w1). simpl.
  destruct (f a {| db := db w1; wire := [] |}) as [r w2]; simpl.
  now rewrite app_assoc.
Qed.

Lemma oblivious_try_catch (body : M unit) (handler : exn → M unit) :
  oblivious body → (∀ e, oblivious (handler e)) → oblivious (try_catch body handler).
Proof.
  intros Hm Hf w. unfold try_catch.
  rewrite (Hm w).
  destruct (body {| db := db w; wire := [] |}) as [[e|[]] w1]; simpl; [| reflexivity ].
  rewrite (Hf e {| db := db w1; wire := wire w ++ wire w1 |}), (Hf e w1). simpl.
  destruct (handler e {| db := db w1; wire := [] |}) as [r w2]; simpl.
  now rewrite app_assoc.
Qed.

Lemma oblivious_storage {A : Type} (op : gmap string Session → A * gmap string Session) :
  oblivious (storage op).
Proof.
  intros [d es]. unfold storage. simpl.
  destruct (op d) as [a d']. simpl. now rewrite app_nil_r.
Qed.

Lemma oblivious_getSession (id : string) : oblivious (storage_getSession id).
Proof. intros [d es]. unfold storage_getSession. simpl. now rewrite app_nil_r. Qed.

Lemma oblivious_send (m : outbound) : oblivious (ws_send m).
Proof. intros [d es]. reflexivity. Qed.

Lemma oblivious_close (code : Z) (reason : string) : oblivious (ws_close code reason).
Proof. intros [d es]. reflexivity. Qed.

Ltac oblivious_step :=
  first
    [ apply oblivious_ret | apply oblivious_throw | apply oblivious_storage
    | apply oblivious_getSession | apply oblivious_send | apply oblivious_close
    | apply oblivious_bind; [| intros ? ]
    | match goal with
      | |- oblivious (if ?c then _ else _) => destruct c
      | |- oblivious (match ?x with _ => _ end) => destruct x
      end ].

Lemma on_message_oblivious (sessionId : string) (now : Z) (data : frame) :
  oblivious (on_message sessionId now data).
Proof.
  unfold on_message.
  apply oblivious_try_catch; [| intros e; apply oblivious_send ].
  unfold handle, on_UI_RESPONSE, on_TODO_CONFIRM, on_AGENT_NOTE, on_PING,
    JSON_parse, get, template, slice_0_100.
  cbv zeta.
  repeat oblivious_step.
Qed.

Lemma serve_oblivious (sessionId : string) (frames : list (Z * frame)) :
  oblivious (serve sessionId frames).
Proof.
  induction frames as [|[now data] rest IH]; simpl.
  - apply oblivious_ret.
  - apply oblivious_bind; [ apply on_message_oblivious | intros _; exact IH ].
Qed.

(** C6, the claim as stated fails in its last part: the handler stays
    registered and never asks whether its socket was closed.  When the socket
    still delivers a frame after the close was requested, that frame is
    handled: here a [UI_RESPONSE] that follows [TODO_CONFIRM] with [ok = true]
    adds a second approval and sets [brief.style]. *)
Lemma frame_after_close_is_handled :
  let first := (1700000000007, Json (TODO_CONFIRM true)) in
  let second := (1700000000009, Json (UI_RESPONSE "style_modern" "bold")) in
  let w1 := after (serve "abc123" [first]) (world_of fresh_abc123) in
  let w2 := after (serve "abc123" [first; second]) (world_of fresh_abc123) in
  wire w1 = [ Send (CALL_FINISHED "abc123"); Close 1000 "Call finished" ] ∧
  (length ∘ approvals <$> db w1 !! "abc123") = Some 1%nat ∧
  (style ∘ brief <$> db w1 !! "abc123") = Some VNull ∧
  (length ∘ approvals <$> db w2 !! "abc123") = Some 2%nat ∧
  (style ∘ brief <$> db w2 !! "abc123") = Some (VStr "bold").
Proof. vm_compute. repeat split. Qed.

(** C6, amended: [TODO_CONFIRM] with [ok = true] on a bound session records the
    approval, sends [CALL_FINISHED] with the bound session id and then closes
    with code 1000 and reason "Call finished"; these are the only two things
    done to the socket, and the handler does not throw.  The handler itself
    does not stop there: frames delivered afterwards go through the same
    handler from the state reached, and what they do to the store is what
    they would do on a socket with nothing sent or closed. *)
Theorem TODO_CONFIRM_true_finishes_and_closes
    (sessionId : string) (now : Z) (message : value) (w : world) (s : Session) :
  prop message "type" = Some (VStr "TODO_CONFIRM") →
  prop message "ok" = Some (VBool true) →
  db w !! sessionId = Some s →
  let w' := after (on_message sessionId now (Json message)) w in
  wire w' = wire w ++ [ Send (CALL_FINISHED sessionId); Close 1000 "Call finished" ] ∧
  threw (handle sessionId now (Json message)) w = None ∧
  db w' !! sessionId = Some (approved s now "TODO_CONFIRM ok=true") ∧
  (∀ rest, serve sessionId ((now, Json message) :: rest) w = serve sessionId rest w') ∧
  (∀ rest, db (after (serve sessionId rest) w') =
           db (after (serve sessionId rest) {| db := db w'; wire := [] |})).
Proof.
  intros Ht Hok Hb w'.
  assert (Hrun := handle_TODO_CONFIRM _ now _ _ _ _ Ht Hok Hb).
  assert (Hmsg := on_message_returned _ _ _ _ _ Hrun).
  subst w'. unfold after, threw. rewrite Hrun. unfold after in *.
  repeat split.
  - now rewrite Hmsg.
  - rewrite Hmsg. apply lookup_insert_eq.
  - intros rest. cbn [serve]. unfold mbind, M_bind. now rewrite Hmsg.
  - intros rest. now rewrite (serve_oblivious sessionId rest _).
Qed.

Lemma TODO_CONFIRM_true_finishes_and_closes_witness :
  let w' := after (on_message "abc123" 1700000000007 (Json (TODO_CONFIRM true)))
                  (world_of fresh_abc123) in
  wire w' = wire (world_of fresh_abc123) ++
    [ Send (CALL_FINISHED "abc123"); Close 1000 "Call finished" ] ∧
  threw (handle "abc123" 1700000000007 (Json (TODO_CONFIRM true)))
        (world_of fresh_abc123) = None ∧
  db w' !! "abc123" = Some (approved fresh_abc123 1700000000007 "TODO_CONFIRM ok=true") ∧
  (∀ rest, serve "abc123" ((1700000000007, Json (TODO_CONFIRM true)) :: rest)
             (world_of fresh_abc123) = serve "abc123" rest w') ∧
  (∀ rest, db (after (serve "abc123" rest) w') =
           db (after (serve "abc123" rest) {| db := db w'; wire := [] |})).
Proof.
  apply (TODO_CONFIRM_true_finishes_and_closes "abc123" 1700000000007
           (TODO_CONFIRM true) (world_of fresh_abc123) fresh_abc123);
    reflexivity.
Defined.

(** ** Frames of no known type *)

(** C4, the claim as stated fails: a JSON object of an unknown type gets no
    reply at all, not an [ERROR]: the [if]/[else if] chain has no last
    [else], and nothing is thrown. *)
Lemma unknown_type_gets_no_ERROR :
  let data := Json (VObj [ ("type", VStr "HELLO") ]) in
  own "type" [ ("type", VStr "HELLO") ] = Some (VStr "HELLO") ∧
  ("HELLO" ∉ known_types) ∧
  threw (handle "abc123" 1700000000007 data) (world_of fresh_abc123) = None ∧
  wire (after (on_message "abc123" 1700000000007 data) (world_of fresh_abc123)) = [].
Proof.
  repeat split.
  intros Hin. unfold known_types in Hin.
  repeat (apply elem_of_cons in Hin as [Heq|Hin]; [ discriminate Heq |]).
  now apply elem_of_nil in Hin.
Qed.

(** C4, amended: for a frame that parses as a JSON object whose [type] is none
    of [UI_RESPONSE], [TODO_CONFIRM], [AGENT_NOTE], [PING] (absent and
    non-string types included), the handler sends nothing, throws nothing and
    leaves the store, hence the approvals and the brief of every session, as
    they were. *)
Theorem unknown_type_is_ignored
    (sessionId : string) (now : Z) (members : list (string * value)) (w : world) :
  (∀ t, t ∈ known_types → own "type" members ≠ Some (VStr t)) →
  on_message sessionId now (Json (VObj members)) w = (inr tt, w) ∧
  threw (handle sessionId now (Json (VObj members))) w = None.
Proof.
  intros Hunknown.
  assert (Hrun : handle sessionId now (Json (VObj members)) w = (inr tt, w)).
  { unfold_handler. cbn [prop].
    destruct (own "type" members) as [ty|] eqn:Hty; cbn [default from_option id]; [| reflexivity ].
    destruct ty; crunch; try reflexivity.
    repeat match goal with
    | |- context [String.eqb s ?lit] =>
        destruct (String.eqb_spec s lit) as [->|_];
        [ exfalso; eapply Hunknown; [| reflexivity ];
          unfold known_types; set_solver |]
    end.
    reflexivity. }
  split; [ now apply on_message_returned |].
  unfold threw. now rewrite Hrun.
Qed.

Lemma unknown_type_is_ignored_witness :
  on_message "abc123" 1700000000007 (Json (VObj [ ("type", VStr "HELLO") ]))
    (world_of fresh_abc123) = (inr tt, world_of fresh_abc123) ∧
  threw (handle "abc123" 1700000000007 (Json (VObj [ ("type", VStr "HELLO") ])))
        (world_of fresh_abc123) = None.
Proof.
  apply (unknown_type_is_ignored "abc123" 1700000000007
           [ ("type", VStr "HELLO") ] (world_of fresh_abc123)).
  intros t Hin. unfold known_types in Hin.
  repeat (apply elem_of_cons in Hin as [->|Hin]; [ discriminate |]).
  now apply elem_of_nil in Hin.
Defined.

(** ** What one run of the handler can do to the bound session *)

Lemma same_db (sessionId : string) (s : Session) (w : world) :
  db w !! sessionId = Some s →
  db w = <[sessionId := grown s [] (brief s)]> (db w).
Proof.
  intros Hb. symmetry. apply insert_id. rewrite Hb. f_equal.
  destruct s. unfold grown; simpl. now rewrite app_nil_r.
Qed.

Lemma prop_total (message : value) (k k' : string) :
  is_Some (prop message k) → is_Some (prop message k').
Proof. destruct message; simpl; intros [v Hv]; try discriminate; eauto. Qed.

Ltac leaf :=
  unfold shaped; crunch; eexists _, _, _; split;
  [ split;
    [ first [ apply same_db; assumption
            | reflexivity
            | rewrite insert_insert_eq; reflexivity ]
    | first [ symmetry; apply app_nil_r
            | reflexivity
            | rewrite <- app_assoc; reflexivity ] ]
  | simpl; auto ].

Section Branches.
Variables (sessionId : string) (now : Z) (message : value).
Variables (w : world) (s : Session).
Hypothesis bound : db w !! sessionId = Some s.
Hypothesis not_nullish : ∀ k, is_Some (prop message k).

Lemma on_UI_RESPONSE_summary :
  ∃ added b es,
    shaped sessionId s w added b es (on_UI_RESPONSE sessionId now message w).2 ∧
    match (on_UI_RESPONSE sessionId now message w).1 with
    | inr _ => length added = 1%nat ∧ es = []
    | inl _ => b = brief s ∧ (length added ≤ 1)%nat ∧ es = []
    end.
Proof.
  destruct (not_nullish "promptId") as [p Hp].
  destruct (not_nullish "selectedOptionId") as [sel Hs].
  unfold_handler. rewrite Hp, Hs.
  destruct (ToString p) as [ps|] eqn:Hps; [| leaf ].
  destruct (ToString sel) as [ss|] eqn:Hss; [| leaf ].
  crunch. rewrite (addApproval_bound _ _ _ bound); crunch.
  destruct p; try (leaf; fail).
  destruct (startsWith _ "style");
    [| destruct (startsWith _ "palette");
       [| destruct (startsWith _ "finish") ] ];
    crunch; rewrite ?lookup_insert_eq; crunch;
    rewrite (updateBrief_bound _ _ (push_approval s _)) by apply lookup_insert_eq;
    leaf.
Qed.

Lemma on_TODO_CONFIRM_summary :
  ∃ added b es,
    shaped sessionId s w added b es (on_TODO_CONFIRM sessionId now message w).2 ∧
    match (on_TODO_CONFIRM sessionId now message w).1 with
    | inr _ => length added = 1%nat ∧ b = brief s
    | inl _ => b = brief s ∧ (length added ≤ 1)%nat ∧ es = []
    end.
Proof.
  destruct (not_nullish "ok") as [ok Hok].
  unfold_handler. rewrite Hok.
  destruct (ToString ok) as [oks|] eqn:Hoks; [| leaf ].
  crunch. rewrite (addApproval_bound _ _ _ bound); crunch.
  destruct (truthy ok); leaf.
Qed.

Lemma on_AGENT_NOTE_summary :
  ∃ added b es,
    shaped sessionId s w added b es (on_AGENT_NOTE sessionId now message w).2 ∧
    match (on_AGENT_NOTE sessionId now message w).1 with
    | inr _ =>
        length added =
          (if truthy (default VUndefined (prop message "message")) then 1 else 0)%nat ∧
        b = brief s ∧ es = []
    | inl _ => b = brief s ∧ (length added ≤ 1)%nat ∧ es = []
    end.
Proof.
  destruct (not_nullish "message") as [m Hm].
  unfold_handler. rewrite Hm. cbn [default from_option id].
  cbv zeta. destruct (truthy m) eqn:Htruthy; [ rewrite Htruthy | leaf ].
  destruct (ToString m) as [ns|] eqn:Hns; [| leaf ].
  crunch. rewrite (addApproval_bound _ _ _ bound); crunch.
  destruct m; try (leaf; fail).
  destruct (ToString (VArr (firstn 100 items))); leaf.
Qed.

Lemma on_PING_summary :
  ∃ added b es,
    shaped sessionId s w added b es (on_PING message w).2 ∧
    added = [] ∧ b = brief s ∧
    es = [ Send (PONG (default VUndefined (prop message "ts"))) ].
Proof.
  destruct (not_nullish "ts") as [t Ht].
  unfold_handler. rewrite Ht. cbn [default from_option id].
  destruct (ToString t); leaf.
Qed.
End Branches.

Lemma handle_Malformed sessionId now why w :
  handle sessionId now (Malformed why) w = (inl (SyntaxError why), w).
Proof. reflexivity. Qed.

Lemma handle_nullish sessionId now message w :
  prop message "type" = None →
  ∃ e, handle sessionId now (Json message) w = (inl e, w).
Proof. intros H. unfold_handler. rewrite H. eauto. Qed.

Lemma handle_dispatch sessionId now message type w :
  prop message "type" = Some type →
  handle sessionId now (Json message) w =
  (if is_str type "UI_RESPONSE" then on_UI_RESPONSE sessionId now message
   else if is_str type "TODO_CONFIRM" then on_TODO_CONFIRM sessionId now message
   else if is_str type "AGENT_NOTE" then on_AGENT_NOTE sessionId now message
   else if is_str type "PING" then on_PING message
   else mret tt) w.
Proof.
  intros H. unfold handle, JSON_parse, get, mbind, M_bind, mret, M_ret.
  now rewrite H.
Qed.

Lemma handle_summary sessionId now data w s :
  db w !! sessionId = Some s →
  ∃ added b es,
    shaped sessionId s w added b es (handle sessionId now data w).2 ∧
    match (handle sessionId now data w).1 with
    | inr _ => length added = (if records_approval data then 1 else 0)%nat
    | inl _ =>
        b = brief s ∧ (length added ≤ 1)%nat ∧ Forall is_pong es ∧
        match data with Malformed _ => added = [] ∧ es = [] | Json _ => True end
    end.
Proof.
  intros Hb. destruct data as [why|message].
  { rewrite handle_Malformed. leaf. }
  destruct (prop message "type") as [type|] eqn:Hty.
  2: { destruct (handle_nullish sessionId now message w Hty) as [e ->]. leaf. }
  assert (Hnn : ∀ k, is_Some (prop message k))
    by (intros k; apply (prop_total message "type"); eauto).
  rewrite (handle_dispatch _ _ _ _ _ Hty).
  unfold records_approval. rewrite Hty.
  destruct (is_str type "UI_RESPONSE") eqn:H1.
  { destruct (on_UI_RESPONSE_summary sessionId now message w s Hb Hnn)
      as (added & b & es & Hsh & Hr).
    exists added, b, es. split; [ exact Hsh |].
    destruct (on_UI_RESPONSE sessionId now message w).1; simpl.
    - destruct Hr as (-> & Hlen & ->). repeat split; auto.
    - tauto. }
  destruct (is_str type "TODO_CONFIRM") eqn:H2.
  { destruct (on_TODO_CONFIRM_summary sessionId now message w s Hb Hnn)
      as (added & b & es & Hsh & Hr).
    exists added, b, es. split; [ exact Hsh |].
    destruct (on_TODO_CONFIRM sessionId now message w).1; simpl.
    - destruct Hr as (-> & Hlen & ->). repeat split; auto.
    - tauto. }
  destruct (is_str type "AGENT_NOTE") eqn:H3.
  { destruct (on_AGENT_NOTE_summary sessionId now message w s Hb Hnn)
      as (added & b & es & Hsh & Hr).
    exists added, b, es. split; [ exact Hsh |].
    destruct (on_AGENT_NOTE sessionId now message w).1; simpl.
    - destruct Hr as (-> & Hlen & ->). repeat split; auto.
    - tauto. }
  destruct (is_str type "PING") eqn:H4.
  { destruct (on_PING_summary sessionId message w s Hb Hnn)
      as (added & b & es & Hsh & -> & -> & ->).
    eexists _, _, _. split; [ exact Hsh |].
    destruct (on_PING message w).1; simpl; [| reflexivity ].
    repeat split; auto. repeat constructor. eexists; reflexivity. }
  leaf.
Qed.

(** What [on_message] leaves behind, from what the [try] block did. *)
Lemma on_message_after sessionId now data w :
  after (on_message sessionId now data) w =
  match handle sessionId now data w with
  | (inr _, w') => w'
  | (inl e, w') =>
      {| db := db w'; wire := wire w' ++ [Send (ERROR (String_of_error e))] |}
  end.
Proof.
  unfold after, on_message, try_catch.
  destruct (handle sessionId now data w) as [[e|[]] w']; reflexivity.
Qed.

(** ** Approvals per handled frame *)

(** C7, the claim as stated fails: [PING] is not the only frame that is
    handled without error and appends no approval.  An [AGENT_NOTE] with an
    empty message is skipped by the guard [if (noteMessage)]: nothing is
    thrown, nothing is sent, and the approvals stay as they were. *)
Lemma empty_AGENT_NOTE_appends_nothing :
  let data := Json (AGENT_NOTE "") in
  threw (handle "abc123" 1700000000007 data) (world_of fresh_abc123) = None ∧
  after (on_message "abc123" 1700000000007 data) (world_of fresh_abc123) =
    world_of fresh_abc123 ∧
  (approvals <$> db (world_of fresh_abc123) !! "abc123") = Some [].
Proof. repeat split. Qed.

(** C7, amended: a frame that is handled without error appends exactly one
    approval to the bound session when it is a [UI_RESPONSE], a
    [TODO_CONFIRM] (whatever [ok] is) or an [AGENT_NOTE] with a non-empty
    message, and none otherwise: none for [PING], none for an [AGENT_NOTE]
    whose message is empty or missing, none for a frame of another type.
    Approvals already in the log are kept, in order. *)
Theorem handled_frame_appends_by_kind
    (sessionId : string) (now : Z) (data : frame) (w : world) (s : Session) :
  db w !! sessionId = Some s →
  threw (handle sessionId now data) w = None →
  ∃ s' added,
    db (after (on_message sessionId now data) w) !! sessionId = Some s' ∧
    approvals s' = approvals s ++ added ∧
    length added = (if records_approval data then 1 else 0)%nat.
Proof.
  intros Hb Hok.
  destruct (handle_summary sessionId now data w s Hb) as (added & b & es & Hsh & Hr).
  rewrite on_message_after. unfold threw in Hok.
  destruct (handle sessionId now data w) as [[e|[]] w']; [ discriminate |].
  simpl in *. destruct Hsh as [Hdb _].
  exists (grown s added b), added. rewrite Hdb.
  split; [ apply lookup_insert_eq | split; [ reflexivity | exact Hr ] ].
Qed.

Lemma handled_frame_appends_by_kind_witness :
  ∃ s' added,
    db (after (on_message "abc123" 1700000000007 (Json (AGENT_NOTE "prefers oils")))
              (world_of fresh_abc123)) !! "abc123" = Some s' ∧
    approvals s' = approvals fresh_abc123 ++ added ∧
    length added =
      (if records_approval (Json (AGENT_NOTE "prefers oils")) then 1 else 0)%nat.
Proof.
  apply (handled_frame_appends_by_kind "abc123" 1700000000007
           (Json (AGENT_NOTE "prefers oils")) (world_of fresh_abc123) fresh_abc123);
    reflexivity.
Defined.

(** The kinds of the claim, one by one. *)
Example records_approval_by_kind :
  records_approval (Json (UI_RESPONSE "style_modern" "bold")) = true ∧
  records_approval (Json (TODO_CONFIRM true)) = true ∧
  records_approval (Json (TODO_CONFIRM false)) = true ∧
  records_approval (Json (AGENT_NOTE "prefers oils")) = true ∧
  records_approval (Json (AGENT_NOTE "")) = false ∧
  records_approval (Json (VObj [ ("type", VStr "AGENT_NOTE") ])) = false ∧
  records_approval (Json (PING "12345")) = false ∧
  records_approval (Json (VObj [ ("type", VStr "HELLO") ])) = false.
Proof. repeat split. Qed.

(** ** Frames that fail *)

(** C8, the claim as stated fails for a frame that parses but whose handling
    throws: [{"type": "UI_RESPONSE"}] has no [promptId], so
    [message.promptId.toLowerCase()] throws, but only after the approval was
    appended.  The [ERROR] is sent and the approvals are no longer what they
    were. *)
Lemma throwing_UI_RESPONSE_leaves_an_approval :
  let data := Json (VObj [ ("type", VStr "UI_RESPONSE") ]) in
  let w' := after (on_message "abc123" 1700000000007 data) (world_of fresh_abc123) in
  threw (handle "abc123" 1700000000007 data) (world_of fresh_abc123) =
    Some (TypeError "Cannot read properties of undefined (reading 'toLowerCase')") ∧
  wire w' =
    [ Send (ERROR "TypeError: Cannot read properties of undefined (reading 'toLowerCase')") ] ∧
  (approvals <$> db (world_of fresh_abc123) !! "abc123") = Some [] ∧
  (approvals <$> db w' !! "abc123") =
    Some [ {| ts := 1700000000007; text := "UI_RESPONSE undefined -> undefined" |} ].
Proof. vm_compute. repeat split. Qed.

(** C8, amended.  A frame that is not valid JSON gets exactly one [ERROR]
    reply, which carries the text of the exception; the connection is not
    closed and the store, hence the approvals and the brief, is left exactly
    as it was.  A frame that parses but whose handling throws gets exactly one
    [ERROR] reply as well, the last thing sent for it, possibly after the
    [PONG] of a [PING]; the connection is not closed, the brief is left as it
    was and the other sessions too, and the approvals keep their entries but
    may have gained one, appended before the failure. *)
Theorem failing_frame_is_reported
    (sessionId : string) (now : Z) (w : world) (s : Session)
    (message : value) (e : exn) :
  db w !! sessionId = Some s →
  threw (handle sessionId now (Json message)) w = Some e →
  (∀ why,
     on_message sessionId now (Malformed why) w =
     (inr tt, {| db := db w;
                 wire := wire w ++ [ Send (ERROR ("SyntaxError: " +:+ why)) ] |})) ∧
  ∃ s' added pongs,
    let w' := after (on_message sessionId now (Json message)) w in
    wire w' = wire w ++ pongs ++ [ Send (ERROR (String_of_error e)) ] ∧
    Forall is_pong pongs ∧
    String_of_error e ≠ "" ∧
    db w' !! sessionId = Some s' ∧
    brief s' = brief s ∧
    approvals s' = approvals s ++ added ∧
    (length added ≤ 1)%nat ∧
    ∀ other, other ≠ sessionId → db w' !! other = db w !! other.
Proof.
  intros Hb He. split; [ reflexivity |].
  destruct (handle_summary sessionId now (Json message) w s Hb)
    as (added & b & es & Hsh & Hr).
  exists (grown s added b), added, es. cbv zeta.
  rewrite on_message_after. unfold threw in He.
  destruct (handle sessionId now (Json message) w) as [[e'|[]] w'];
    [| discriminate ].
  injection He as ->. simpl in *.
  destruct Hsh as [Hdb Hwire]. destruct Hr as (-> & Hlen & Hpongs & _).
  rewrite Hdb, Hwire, <- app_assoc.
  repeat split; auto.
  - destruct e; discriminate.
  - apply lookup_insert_eq.
  - intros other Hne. now apply lookup_insert_ne.
Qed.

Lemma failing_frame_is_reported_witness :
  let message := VObj [ ("type", VStr "AGENT_NOTE"); ("message", VBool true) ] in
  let e := TypeError "noteMessage.slice is not a function" in
  (∀ why,
     on_message "abc123" 1700000000007 (Malformed why) (world_of moody_abc123) =
     (inr tt, {| db := db (world_of moody_abc123);
                 wire := wire (world_of moody_abc123) ++
                         [ Send (ERROR ("SyntaxError: " +:+ why)) ] |})) ∧
  ∃ s' added pongs,
    let w' := after (on_message "abc123" 1700000000007 (Json message))
                    (world_of moody_abc123) in
    wire w' = wire (world_of moody_abc123) ++ pongs ++
              [ Send (ERROR (String_of_error e)) ] ∧
    Forall is_pong pongs ∧
    String_of_error e ≠ "" ∧
    db w' !! "abc123" = Some s' ∧
    brief s' = brief moody_abc123 ∧
    approvals s' = approvals moody_abc123 ++ added ∧
    (length added ≤ 1)%nat ∧
    ∀ other, other ≠ "abc123" →
             db w' !! other = db (world_of moody_abc123) !! other.
Proof.
  apply (failing_frame_is_reported "abc123" 1700000000007
           (world_of moody_abc123) moody_abc123
           (VObj [ ("type", VStr "AGENT_NOTE"); ("message", VBool true) ])
           (TypeError "noteMessage.slice is not a function"));
    reflexivity.
Defined.

(** Frames that throw, run: a frame that is not JSON, [null], an
    [AGENT_NOTE] whose message is a number (the approval is appended, then
    [slice] is missing), and a [PING] whose [ts] cannot be printed (the
    [PONG] is sent, then the [ERROR]). *)
Example failing_frames_run :
  let run data := after (on_message "abc123" 1700000000007 data) (world_of fresh_abc123) in
  run (Malformed "Unexpected token h in JSON at position 0") =
    {| db := db (world_of fresh_abc123);
       wire := [ Send (ERROR "SyntaxError: Unexpected token h in JSON at position 0") ] |} ∧
  run (Json VNull) =
    {| db := db (world_of fresh_abc123);
       wire := [ Send (ERROR "TypeError: Cannot read properties of null (reading 'type')") ] |} ∧
  (length ∘ approvals <$>
     db (run (Json (VObj [ ("type", VStr "AGENT_NOTE"); ("message", VNum "7") ])))
       !! "abc123") = Some 1%nat ∧
  wire (run (Json (VObj [ ("type", VStr "PING");
                          ("ts", VObj [ ("toString", VNum "1") ]) ]))) =
    [ Send (PONG (VObj [ ("toString", VNum "1") ]));
      Send (ERROR "TypeError: Cannot convert object to primitive value") ].
Proof. vm_compute. repeat split. Qed.

(** ** Frames of the wire format are handled without error *)

Lemma well_typed_is_handled (sessionId : string) (now : Z) (message : value) (w : world) :
  well_typed message → threw (handle sessionId now (Json message)) w = None.
Proof.
  unfold threw.
  intros [(Ht & p & sel & Hp & Hs) | [(Ht & ok & Hok) | [(Ht & note & Hm) | (Ht & t & Hts)]]];
    unfold_handler; rewrite Ht; crunch.
  - rewrite Hp, Hs; crunch.
    destruct (DbStorage.addApproval _ _ _) as [r d]; crunch.
    destruct (startsWith _ "style");
      [| destruct (startsWith _ "palette");
         [| destruct (startsWith _ "finish") ] ];
      crunch; try destruct (d !! sessionId); crunch;
      try destruct (DbStorage.updateBrief _ _ _); reflexivity.
  - rewrite Hok; crunch.
    destruct ok; crunch; destruct (DbStorage.addApproval _ _ _); reflexivity.
  - rewrite Hm; crunch. cbv zeta.
    destruct (String.eqb note "") eqn:Hempty; crunch; [ reflexivity |].
    rewrite Hempty; crunch.
    destruct (DbStorage.addApproval _ _ _); reflexivity.
  - rewrite Hts; reflexivity.
Qed.

(** ** Binding *)

(** A connection that names a session finds it in the store when its handler
    starts: the session is loaded or created, and no run of the handler
    removes it. *)
Lemma on_connection_binds (id : string) (now : Z) (w : world) :
  id ≠ "" →
  is_Some (db (after (on_connection (Some id) now) w) !! id) ∧
  wire (after (on_connection (Some id) now) w) = wire w.
Proof.
  intros Hid. unfold after, on_connection.
  destruct id as [|c id]; [ congruence |].
  unfold mbind, M_bind, storage_getSession, DbStorage.getSession, storage,
    DbStorage.createSession, mret, M_ret. simpl.
  destruct (db w !! String c id) as [s|] eqn:Hs; simpl.
  - rewrite Hs. eauto.
  - rewrite lookup_insert_eq. eauto.
Qed.

Lemma on_message_keeps_bound (sessionId : string) (now : Z) (data : frame) (w : world) :
  is_Some (db w !! sessionId) →
  is_Some (db (after (on_message sessionId now data) w) !! sessionId).
Proof.
  intros [s Hb].
  destruct (handle_summary sessionId now data w s Hb) as (added & b & es & Hsh & _).
  rewrite on_message_after.
  destruct (handle sessionId now data w) as [[e|[]] w']; simpl in *;
    destruct Hsh as [-> _]; rewrite lookup_insert_eq; eauto.
Qed.

(** A connection without [sessionId] is closed with code 1008 and touches no
    session. *)
Lemma on_connection_rejects (now : Z) (w : world) :
  after (on_connection None now) w =
  {| db := db w; wire := wire w ++ [ Close 1008 "Missing sessionId parameter" ] |}.
Proof. reflexivity. Qed.

(** * Further properties of the code *)

(** ** The session store *)



(** X2: [createSession] is not an idempotent create: whatever was stored under
    the id, approvals included, is replaced by the empty session (all scalars
    null, no vibe, rooms, constraints, questions, todos, messages or
    approvals), which is what a following [getSession] returns; the sessions
    under other ids are untouched. *)
Theorem createSession_overwrites (store : gmap string Session) (id : string) (now : Z) :
  (DbStorage.createSession id now store).1 = empty_session id now ∧
  DbStorage.getSession id (DbStorage.createSession id now store).2 =
    Some (empty_session id now) ∧
  (∀ other, other ≠ id →
     DbStorage.getSession other (DbStorage.createSession id now store).2 =
     DbStorage.getSession other store) ∧
  DbStorage.createSession id now (DbStorage.createSession id now store).2 =
    DbStorage.createSession id now store.
Proof.
  unfold DbStorage.createSession, DbStorage.getSession; simpl.
  repeat split.
  - apply lookup_insert_eq.
  - intros other Hne. now apply lookup_insert_ne.
  - now rewrite insert_insert_eq.
Qed.

(** X3: reading a session and saving it back changes nothing, provided it sits
    under its own id; and what [saveSession] writes is what [getSession]
    reads under the id of the session. *)
Theorem saveSession_getSession_round_trip
    (store : gmap string Session) (id : string) (session : Session) :
  keyed store →
  DbStorage.getSession id store = Some session →
  DbStorage.saveSession session store = store ∧
  ∀ other : Session,
    DbStorage.getSession (session_id other) (DbStorage.saveSession other store) =
    Some other.
Proof.
  intros Hk Hget. unfold DbStorage.saveSession, DbStorage.getSession in *.
  split.
  - rewrite (Hk _ _ Hget). now apply insert_id.
  - intros other. apply lookup_insert_eq.
Qed.

Lemma saveSession_getSession_round_trip_witness :
  DbStorage.saveSession moody_abc123 (db (world_of moody_abc123)) =
    db (world_of moody_abc123) ∧
  ∀ other : Session,
    DbStorage.getSession (session_id other)
      (DbStorage.saveSession other (db (world_of moody_abc123))) = Some other.
Proof.
  apply (saveSession_getSession_round_trip (db (world_of moody_abc123)) "abc123"
           moody_abc123).
  - unfold world_of; simpl. intros k s [<- <-]%lookup_singleton_Some. reflexivity.
  - reflexivity.
Defined.

(** X4: [addApproval] and [updateBrief] do not interfere: on every store, in
    either order, they leave the same store, since one touches only the
    approvals and the other only the brief. *)
Theorem addApproval_updateBrief_commute
    (store : gmap string Session) (sessionId : string) (approval : Approval)
    (updates : Partial.t) :
  (DbStorage.updateBrief sessionId updates
     (DbStorage.addApproval sessionId approval store).2).2 =
  (DbStorage.addApproval sessionId approval
     (DbStorage.updateBrief sessionId updates store).2).2.
Proof.
  unfold DbStorage.updateBrief, DbStorage.addApproval.
  destruct (store !! sessionId) as [s|] eqn:Hs; simpl.
  - rewrite !lookup_insert_eq. simpl. now rewrite !insert_insert_eq.
  - now rewrite Hs.
Qed.

Lemma spread_disjoint_commute (b : PaintingBrief) (u1 u2 : Partial.t) :
  disjoint_keys u1 u2 → spread (spread b u1) u2 = spread (spread b u2) u1.
Proof.
  destruct u1 as [s1 p1 f1 v1 r1 c1 t1 b1 q1], u2 as [s2 p2 f2 v2 r2 c2 t2 b2 q2].
  unfold disjoint_keys, spread; simpl.
  intros (Hs & Hp & Hf & Hv & Hr & Hc & Ht & Hb & Hq).
  f_equal;
    match goal with
    | H : ?x = None ∨ ?y = None |- context [default (default _ ?x) ?y] =>
        destruct H as [-> | ->]; simpl; [ now destruct y | now destruct x ]
    end.
Qed.

(** X5: two [updateBrief] calls whose updates share no key commute: in either
    order they leave the same store. *)
Theorem updateBrief_disjoint_commute
    (store : gmap string Session) (sessionId : string) (u1 u2 : Partial.t) :
  disjoint_keys u1 u2 →
  (DbStorage.updateBrief sessionId u2 (DbStorage.updateBrief sessionId u1 store).2).2 =
  (DbStorage.updateBrief sessionId u1 (DbStorage.updateBrief sessionId u2 store).2).2.
Proof.
  intros Hd. unfold DbStorage.updateBrief.
  destruct (store !! sessionId) as [s|] eqn:Hs; simpl.
  - rewrite !lookup_insert_eq. simpl. rewrite !insert_insert_eq.
    unfold set_brief; simpl. now rewrite (spread_disjoint_commute _ _ _ Hd).
  - now rewrite Hs.
Qed.

Lemma updateBrief_disjoint_commute_witness :
  (DbStorage.updateBrief "abc123" (only_constraints {[ "light" := VStr "north" ]})
     (DbStorage.updateBrief "abc123" (only_style (VStr "bold"))
        (db (world_of moody_abc123))).2).2 =
  (DbStorage.updateBrief "abc123" (only_style (VStr "bold"))
     (DbStorage.updateBrief "abc123" (only_constraints {[ "light" := VStr "north" ]})
        (db (world_of moody_abc123))).2).2.
Proof.
  apply (updateBrief_disjoint_commute (db (world_of moody_abc123)) "abc123"
           (only_style (VStr "bold"))
           (only_constraints {[ "light" := VStr "north" ]})).
  unfold disjoint_keys; simpl. repeat split; auto.
Defined.

(** ** Single frames, whatever they are *)

Ltac crunch0 :=
  cbn [is_str String.eqb Ascii.eqb Bool.eqb db wire fst snd truthy
       negb brief approvals push_approval set_brief default from_option id].

Ltac innermost_match :=
  match goal with
  | |- context [match ?x with _ => _ end] =>
      lazymatch x with
      | context [match _ with _ => _ end] => fail
      | _ => destruct x eqn:?
      end
  end.

(** One step of a case analysis of the handler; [store_step] says what to do
    with the calls of the store. *)
Ltac explore_with store_step :=
  repeat (crunch0; cbv zeta;
          first
            [ match goal with
              | |- context [ToString (VArr ?l)] => destruct (ToString (VArr l)) eqn:?
              | |- context [ToString (VObj ?l)] => destruct (ToString (VObj l)) eqn:?
              end
            | progress cbn [ToString]
            | store_step
            | innermost_match ]).

Ltac forget_store :=
  idtac;
  match goal with
  | |- context [DbStorage.addApproval ?a ?b ?c] =>
      destruct (DbStorage.addApproval a b c)
  | |- context [DbStorage.updateBrief ?a ?b ?c] =>
      destruct (DbStorage.updateBrief a b c)
  end.

Lemma handle_oblivious (sessionId : string) (now : Z) (data : frame) :
  oblivious (handle sessionId now data).
Proof.
  unfold handle, on_UI_RESPONSE, on_TODO_CONFIRM, on_AGENT_NOTE, on_PING,
    JSON_parse, get, template, slice_0_100.
  cbv zeta.
  repeat oblivious_step.
Qed.

Lemma handle_body_outcome (sessionId : string) (now : Z) (data : frame)
    (store : gmap string Session) :
  body_outcome sessionId
    (handle sessionId now data {| db := store; wire := [] |}).1
    (wire (handle sessionId now data {| db := store; wire := [] |}).2).
Proof.
  destruct data as [why|message]; [ apply body_quiet |].
  destruct message; unfold_handler; cbn [prop]; explore_with forget_store; simpl;
    first [ apply body_quiet | apply body_pong | apply body_preview
          | apply body_finish ].
Qed.

(** X6: whatever the frame and whatever the store, the handler does one of six
    things to the socket.  If the [try] block returns: nothing, a [PONG], the
    fallback [TODO_PREVIEW], or [CALL_FINISHED] for this session followed by
    the close with code 1000.  If it throws: one [ERROR] with the text of the
    exception, alone or after a [PONG].  So a close always follows
    [CALL_FINISHED], an [ERROR] is always the last thing sent for its frame,
    and a frame is never answered by both a reply and an error, [PING]
    apart. *)
Theorem handler_socket_menu
    (sessionId : string) (now : Z) (data : frame) (w : world) :
  ∃ es,
    wire (after (on_message sessionId now data) w) = wire w ++ es ∧
    match threw (handle sessionId now data) w with
    | None =>
        es = [] ∨ (∃ t, es = [ Send (PONG t) ]) ∨
        es = [ Send (TODO_PREVIEW fallback_items) ] ∨
        es = [ Send (CALL_FINISHED sessionId); Close 1000 "Call finished" ]
    | Some e =>
        es = [ Send (ERROR (String_of_error e)) ] ∨
        ∃ t, es = [ Send (PONG t); Send (ERROR (String_of_error e)) ]
    end.
Proof.
  assert (Hbody := handle_body_outcome sessionId now data (db w)).
  rewrite on_message_after. unfold threw.
  rewrite (handle_oblivious sessionId now data w). cbv zeta.
  destruct (handle sessionId now data {| db := db w; wire := [] |}) as [r w0].
  simpl in *.
  inversion Hbody as [r'|r' t| |]; subst; simpl.
  - destruct r as [e|[]]; simpl.
    + exists [Send (ERROR (String_of_error e))]. rewrite app_nil_r. auto.
    + exists []. auto.
  - destruct r as [e|[]]; simpl.
    + exists [Send (PONG t); Send (ERROR (String_of_error e))].
      rewrite <- app_assoc. eauto.
    + exists [Send (PONG t)]. eauto.
  - eexists. split; [ reflexivity | auto ].
  - eexists. split; [ reflexivity | auto ].
Qed.

Lemma addApproval_unbound (store : gmap string Session) (sessionId : string)
    (a : Approval) :
  store !! sessionId = None → DbStorage.addApproval sessionId a store = (None, store).
Proof. intros H. unfold DbStorage.addApproval. now rewrite H. Qed.

Lemma updateBrief_unbound (store : gmap string Session) (sessionId : string)
    (u : Partial.t) :
  store !! sessionId = None → DbStorage.updateBrief sessionId u store = (None, store).
Proof. intros H. unfold DbStorage.updateBrief. now rewrite H. Qed.

Ltac unbound_store H :=
  idtac;
  match goal with
  | |- context [DbStorage.addApproval ?a ?b ?c] =>
      rewrite (addApproval_unbound c a b H)
  | |- context [DbStorage.updateBrief ?a ?b ?c] =>
      rewrite (updateBrief_unbound c a b H)
  | |- context [match ?d !! ?k with _ => _ end] => rewrite H
  end.

Ltac bound_store H :=
  idtac;
  match goal with
  | |- context [DbStorage.addApproval ?a ?b ?c] =>
      rewrite (addApproval_bound c a _ H)
  | |- context [DbStorage.updateBrief ?a ?u (<[?a := ?x]> ?d)] =>
      rewrite (updateBrief_bound (<[a := x]> d) a x (lookup_insert_eq d a x) u)
  | |- context [<[?a := ?x]> ?d !! ?a] => rewrite (lookup_insert_eq d a x)
  end.

Lemma handle_unbound (sessionId : string) (now : Z) (data : frame) (w : world) :
  db w !! sessionId = None →
  db (handle sessionId now data w).2 = db w.
Proof.
  intros Hn.
  destruct data as [why|message]; [ reflexivity |].
  destruct message; unfold_handler; cbn [prop];
    explore_with ltac:(unbound_store Hn); reflexivity.
Qed.

Ltac brief_leaf :=
  first
    [ left; reflexivity
    | right; left; exists Style; eexists; reflexivity
    | right; left; exists Palette; eexists; reflexivity
    | right; left; exists Finish; eexists; reflexivity
    | right; right; eexists _, _; reflexivity ].

Ltac run_leaf :=
  unfold shaped; crunch; eexists _, _, _; split;
  [ split;
    [ first [ apply same_db; assumption
            | reflexivity
            | rewrite insert_insert_eq; reflexivity ]
    | first [ symmetry; apply app_nil_r
            | reflexivity
            | rewrite <- app_assoc; reflexivity ] ]
  | split; [ simpl; auto |];
    split; [ repeat constructor | brief_leaf ] ].

Lemma handle_run (sessionId : string) (now : Z) (data : frame) (w : world)
    (s : Session) :
  db w !! sessionId = Some s →
  ∃ added b es,
    shaped sessionId s w added b es (handle sessionId now data w).2 ∧
    (length added ≤ 1)%nat ∧
    Forall (λ a, ts a = now) added ∧
    brief_step (brief s) b.
Proof.
  intros Hb.
  destruct data as [why|message]; [ rewrite handle_Malformed; run_leaf |].
  destruct message; unfold_handler; cbn [prop];
    explore_with ltac:(bound_store Hb); run_leaf.
Qed.

(** ** Whole connections *)

Lemma brief_step_same_rest (old new : PaintingBrief) :
  brief_step old new → same_rest old new.
Proof.
  unfold same_rest.
  intros [-> | [(f & v & ->) | (k & v & ->)]];
    [ | destruct f | ]; simpl; repeat split.
Qed.

Lemma on_message_run (sessionId : string) (now : Z) (data : frame) (w : world)
    (s : Session) :
  db w !! sessionId = Some s →
  ∃ added b,
    db (after (on_message sessionId now data) w) =
      <[sessionId := grown s added b]> (db w) ∧
    (length added ≤ 1)%nat ∧
    Forall (λ a, ts a = now) added ∧
    brief_step (brief s) b.
Proof.
  intros Hb.
  destruct (handle_run sessionId now data w s Hb)
    as (added & b & es & [Hdb _] & Hlen & Hts & Hstep).
  exists added, b. rewrite on_message_after.
  destruct (handle sessionId now data w) as [[e|[]] w']; simpl in *; auto.
Qed.

Lemma serve_run (sessionId : string) (frames : list (Z * frame)) :
  ∀ (w : world) (s : Session),
    db w !! sessionId = Some s →
    ∃ added b,
      db (after (serve sessionId frames) w) =
        <[sessionId := grown s added b]> (db w) ∧
      (length added ≤ length frames)%nat ∧
      Forall (λ a, ts a ∈ frames.*1) added ∧
      same_rest (brief s) b.
Proof.
  induction frames as [|[now data] rest IH]; intros w s Hb.
  - exists [], (brief s). unfold after; simpl.
    split; [ now apply same_db |].
    repeat split; auto.
  - destruct (on_message_run sessionId now data w s Hb)
      as (a1 & b1 & Hdb1 & Hlen1 & Hts1 & Hstep1).
    unfold after in *. cbn [serve]. unfold mbind, M_bind.
    destruct (on_message sessionId now data w) as [[e|[]] w1] eqn:Hrun.
    { unfold on_message, try_catch in Hrun.
      destruct (handle sessionId now data w) as [[e'|[]] w']; discriminate Hrun. }
    simpl in Hdb1.
    assert (Hb1 : db w1 !! sessionId = Some (grown s a1 b1))
      by (rewrite Hdb1; apply lookup_insert_eq).
    destruct (IH w1 _ Hb1) as (a2 & b2 & Hdb2 & Hlen2 & Hts2 & Hrest2).
    exists (a1 ++ a2), b2. rewrite Hdb2, Hdb1, insert_insert_eq.
    split; [| split; [| split ] ].
    + f_equal. unfold grown; simpl. now rewrite app_assoc.
    + rewrite length_app. simpl. lia.
    + apply Forall_app. split.
      * eapply Forall_impl; [ exact Hts1 |]. simpl. intros a ->. apply elem_of_cons; auto.
      * eapply Forall_impl; [ exact Hts2 |]. simpl. intros a Ha. apply elem_of_cons; auto.
    + apply brief_step_same_rest in Hstep1.
      unfold same_rest in *. simpl in *. intuition congruence.
Qed.

(** X7: over a whole connection the approvals of the bound session only grow
    at the end: after any sequence of frames, malformed and failing ones
    included, the log is the former log followed by new entries, at most one
    per frame, each stamped with the arrival time of one of the frames. *)
Theorem approvals_are_append_only
    (sessionId : string) (frames : list (Z * frame)) (w : world) (s : Session) :
  db w !! sessionId = Some s →
  ∃ s' added,
    db (after (serve sessionId frames) w) !! sessionId = Some s' ∧
    approvals s' = approvals s ++ added ∧
    (length added ≤ length frames)%nat ∧
    Forall (λ a, ts a ∈ frames.*1) added.
Proof.
  intros Hb.
  destruct (serve_run sessionId frames w s Hb) as (added & b & Hdb & Hlen & Hts & _).
  exists (grown s added b), added. rewrite Hdb.
  split; [ apply lookup_insert_eq | auto ].
Qed.

Lemma approvals_are_append_only_witness :
  let frames :=
    [ (1700000000007, Json (UI_RESPONSE "style_modern" "bold"));
      (1700000000008, Malformed "Unexpected end of JSON input");
      (1700000000009, Json (TODO_CONFIRM false)) ] in
  ∃ s' added,
    db (after (serve "abc123" frames) (world_of moody_abc123)) !! "abc123" = Some s' ∧
    approvals s' = approvals moody_abc123 ++ added ∧
    (length added ≤ length frames)%nat ∧
    Forall (λ a, ts a ∈ frames.*1) added.
Proof.
  apply (approvals_are_append_only "abc123" _ (world_of moody_abc123) moody_abc123).
  reflexivity.
Defined.

(** X8: what no sequence of frames changes: the id, the creation time, the
    messages and the todos of the bound session; the fields [vibe], [rooms],
    [timeline], [budget] and [openQuestions] of its brief; and every other
    session of the store. *)
Theorem connection_touches_only_brief_choices_and_approvals
    (sessionId : string) (frames : list (Z * frame)) (w : world) (s : Session) :
  db w !! sessionId = Some s →
  ∃ s',
    db (after (serve sessionId frames) w) !! sessionId = Some s' ∧
    same_identity s s' ∧
    same_rest (brief s) (brief s') ∧
    ∀ other, other ≠ sessionId →
             db (after (serve sessionId frames) w) !! other = db w !! other.
Proof.
  intros Hb.
  destruct (serve_run sessionId frames w s Hb) as (added & b & Hdb & _ & _ & Hrest).
  exists (grown s added b). rewrite Hdb.
  split; [ apply lookup_insert_eq |].
  split; [ repeat split |].
  split; [ exact Hrest |].
  intros other Hne. now apply lookup_insert_ne.
Qed.

Lemma connection_touches_only_brief_choices_and_approvals_witness :
  let frames :=
    [ (1700000000007, Json (UI_RESPONSE "light" "north"));
      (1700000000008, Json (AGENT_NOTE "prefers oils"));
      (1700000000009, Json (TODO_CONFIRM true)) ] in
  ∃ s',
    db (after (serve "abc123" frames) (world_of moody_abc123)) !! "abc123" = Some s' ∧
    same_identity moody_abc123 s' ∧
    same_rest (brief moody_abc123) (brief s') ∧
    ∀ other, other ≠ "abc123" →
             db (after (serve "abc123" frames) (world_of moody_abc123)) !! other =
             db (world_of moody_abc123) !! other.
Proof.
  apply (connection_touches_only_brief_choices_and_approvals "abc123" _
           (world_of moody_abc123) moody_abc123).
  reflexivity.
Defined.

(** X9: the handler never creates a session.  On an id that the store does
    not hold, [addApproval] and [updateBrief] return [undefined] and the
    constraints branch finds no session: whatever the frames, the store is
    left exactly as it was. *)
Theorem unknown_session_is_never_written
    (sessionId : string) (frames : list (Z * frame)) (w : world) :
  db w !! sessionId = None →
  db (after (serve sessionId frames) w) = db w.
Proof.
  revert w. induction frames as [|[now data] rest IH]; intros w Hn; [ reflexivity |].
  unfold after in *. cbn [serve]. unfold mbind, M_bind.
  assert (H1 : db (on_message sessionId now data w).2 = db w).
  { change ((on_message sessionId now data w).2)
      with (after (on_message sessionId now data) w).
    rewrite on_message_after.
    assert (Hh := handle_unbound sessionId now data w Hn).
    destruct (handle sessionId now data w) as [[e|[]] w']; simpl in *; exact Hh. }
  destruct (on_message sessionId now data w) as [[e|[]] w1] eqn:Hrun.
  { unfold on_message, try_catch in Hrun.
    destruct (handle sessionId now data w) as [[e'|[]] w']; discriminate Hrun. }
  simpl in H1. rewrite IH by (now rewrite H1). exact H1.
Qed.

Lemma unknown_session_is_never_written_witness :
  db (after (serve "zzz999"
               [ (1700000000007, Json (UI_RESPONSE "light" "north"));
                 (1700000000009, Json (TODO_CONFIRM true)) ])
            (world_of moody_abc123)) =
  db (world_of moody_abc123).
Proof.
  apply (unknown_session_is_never_written "zzz999" _ (world_of moody_abc123)).
  reflexivity.
Defined.

(** ** Single frames, kind by kind *)



(** X11: an [AGENT_NOTE] whose message is a string sends nothing and leaves
    the brief alone.  If the string is empty the frame is skipped altogether;
    otherwise one approval is appended, whose text is the message after the
    prefix "AGENT_NOTE: ", in full, and whose time is the arrival time. *)
Theorem AGENT_NOTE_is_recorded
    (sessionId : string) (now : Z) (message : value) (note : string)
    (w : world) (s : Session) :
  prop message "type" = Some (VStr "AGENT_NOTE") →
  prop message "message" = Some (VStr note) →
  db w !! sessionId = Some s →
  on_message sessionId now (Json message) w =
  (inr tt,
   if String.eqb note "" then w
   else {| db := <[sessionId := approved s now ("AGENT_NOTE: " +:+ note)]> (db w);
           wire := wire w |}).
Proof.
  intros Ht Hm Hb. apply on_message_returned. unfold_handler.
  rewrite Ht; crunch0. rewrite Hm; crunch0. cbv zeta.
  destruct (String.eqb note "") eqn:Hempty; crunch0; [ reflexivity |].
  rewrite Hempty; crunch0. cbn [ToString].
  now rewrite (addApproval_bound _ _ _ Hb).
Qed.

Lemma AGENT_NOTE_is_recorded_witness :
  on_message "abc123" 1700000000007 (Json (AGENT_NOTE "prefers oils"))
    (world_of moody_abc123) =
  (inr tt,
   if String.eqb "prefers oils" "" then world_of moody_abc123
   else {| db := <["abc123" := approved moody_abc123 1700000000007
                                 ("AGENT_NOTE: " +:+ "prefers oils")]>
                   (db (world_of moody_abc123));
           wire := wire (world_of moody_abc123) |}).
Proof.
  apply (AGENT_NOTE_is_recorded "abc123" 1700000000007 (AGENT_NOTE "prefers oils")
           "prefers oils" (world_of moody_abc123) moody_abc123); reflexivity.
Defined.

(** X12: [TODO_CONFIRM] decides on the truthiness of [ok], not on its being a
    boolean: for every [ok] that can be printed, the approval "TODO_CONFIRM
    ok=" followed by the printed [ok] is appended, and then a truthy [ok]
    finishes the call and closes, a falsy one (a missing [ok], [null], 0 and
    the empty string included) gets the fallback [TODO_PREVIEW]. *)
Theorem TODO_CONFIRM_decides_on_truthiness
    (sessionId : string) (now : Z) (message ok : value) (printed : string)
    (w : world) (s : Session) :
  prop message "type" = Some (VStr "TODO_CONFIRM") →
  prop message "ok" = Some ok →
  ToString ok = Some printed →
  db w !! sessionId = Some s →
  on_message sessionId now (Json message) w =
  (inr tt,
   {| db := <[sessionId := approved s now ("TODO_CONFIRM ok=" +:+ printed)]> (db w);
      wire := wire w ++
        if truthy ok
        then [ Send (CALL_FINISHED sessionId); Close 1000 "Call finished" ]
        else [ Send (TODO_PREVIEW fallback_items) ] |}).
Proof.
  intros Ht Hok Hp Hb. apply on_message_returned. unfold_handler.
  rewrite Ht; crunch0. rewrite Hok, Hp.
  rewrite (addApproval_bound _ _ _ Hb).
  destruct (truthy ok); simpl; [ now rewrite <- app_assoc | reflexivity ].
Qed.

Lemma TODO_CONFIRM_decides_on_truthiness_witness :
  on_message "abc123" 1700000000007 (Json (VObj [ ("type", VStr "TODO_CONFIRM") ]))
    (world_of moody_abc123) =
  (inr tt,
   {| db := <["abc123" := approved moody_abc123 1700000000007
                             ("TODO_CONFIRM ok=" +:+ "undefined")]>
              (db (world_of moody_abc123));
      wire := wire (world_of moody_abc123) ++
        if truthy VUndefined
        then [ Send (CALL_FINISHED "abc123"); Close 1000 "Call finished" ]
        else [ Send (TODO_PREVIEW fallback_items) ] |}).
Proof.
  apply (TODO_CONFIRM_decides_on_truthiness "abc123" 1700000000007
           (VObj [ ("type", VStr "TODO_CONFIRM") ]) VUndefined "undefined"
           (world_of moody_abc123) moody_abc123); reflexivity.
Defined.

(** X13: every [UI_RESPONSE] with string fields is handled without error and
    without a reply, and appends exactly the approval "UI_RESPONSE
    <promptId> -> <selectedOptionId>", with the [promptId] as received and
    the arrival time, after the former approvals. *)
Theorem UI_RESPONSE_is_recorded_silently
    (sessionId : string) (now : Z) (message : value) (p sel : string)
    (w : world) (s : Session) :
  prop message "type" = Some (VStr "UI_RESPONSE") →
  prop message "promptId" = Some (VStr p) →
  prop message "selectedOptionId" = Some (VStr sel) →
  db w !! sessionId = Some s →
  let w' := after (on_message sessionId now (Json message)) w in
  threw (handle sessionId now (Json message)) w = None ∧
  wire w' = wire w ∧
  (approvals <$> db w' !! sessionId) =
    Some (approvals s ++
          [ {| ts := now; text := "UI_RESPONSE " +:+ p +:+ " -> " +:+ sel |} ]).
Proof.
  intros Ht Hp Hs Hb. cbv zeta. unfold after, threw.
  destruct (classify p) as [f|] eqn:Hf.
  - apply classify_Some in Hf.
    assert (Hrun := handle_scalar _ now _ _ _ _ _ Ht Hp Hs Hb f Hf).
    rewrite (on_message_returned _ _ _ _ _ Hrun), Hrun. simpl.
    now rewrite lookup_insert_eq.
  - apply classify_None in Hf. destruct Hf as (H1 & H2 & H3).
    assert (Hrun := handle_constraint _ now _ _ _ _ _ Ht Hp Hs Hb H1 H2 H3).
    rewrite (on_message_returned _ _ _ _ _ Hrun), Hrun. simpl.
    now rewrite lookup_insert_eq.
Qed.

Lemma UI_RESPONSE_is_recorded_silently_witness :
  let w' := after (on_message "abc123" 1700000000007
                     (Json (UI_RESPONSE "style_modern" "bold")))
                  (world_of fresh_abc123) in
  threw (handle "abc123" 1700000000007 (Json (UI_RESPONSE "style_modern" "bold")))
        (world_of fresh_abc123) = None ∧
  wire w' = wire (world_of fresh_abc123) ∧
  (approvals <$> db w' !! "abc123") =
    Some (approvals fresh_abc123 ++
          [ {| ts := 1700000000007;
               text := "UI_RESPONSE " +:+ "style_modern" +:+ " -> " +:+ "bold" |} ]).
Proof.
  apply (UI_RESPONSE_is_recorded_silently "abc123" 1700000000007
           (UI_RESPONSE "style_modern" "bold") "style_modern" "bold"
           (world_of fresh_abc123) fresh_abc123); reflexivity.
Defined.

(** ** Successive answers *)

Lemma serve_two (sessionId : string) (n1 n2 : Z) (d1 d2 : frame) (w w1 w2 : world) :
  on_message sessionId n1 d1 w = (inr tt, w1) →
  on_message sessionId n2 d2 w1 = (inr tt, w2) →
  after (serve sessionId [ (n1, d1); (n2, d2) ]) w = w2.
Proof.
  intros H1 H2. unfold after. cbn [serve]. unfold mbind, M_bind, mret, M_ret.
  now rewrite H1, H2.
Qed.

(** X14: answers to prompts that are not about style, palette or finish
    accumulate: after two such [UI_RESPONSE] frames the constraints are the
    former ones with the first answer set and then the second, so that both
    keys are there when they differ and the later answer stands when they
    are the same; the rest of the brief is as it was. *)
Theorem constraints_accumulate
    (sessionId : string) (n1 n2 : Z) (p1 sel1 p2 sel2 : string)
    (w : world) (s : Session) :
  db w !! sessionId = Some s →
  classify p1 = None →
  classify p2 = None →
  ∃ s',
    db (after (serve sessionId [ (n1, Json (UI_RESPONSE p1 sel1));
                                 (n2, Json (UI_RESPONSE p2 sel2)) ]) w)
      !! sessionId = Some s' ∧
    brief s' = with_constraint p2 (VStr sel2)
                 (with_constraint p1 (VStr sel1) (brief s)) ∧
    constraints (brief s') !! p2 = Some (VStr sel2) ∧
    constraints (brief s') !! p1 = Some (VStr (if String.eqb p1 p2 then sel2 else sel1)).
Proof.
  intros Hb [H1 [H2 H3]]%classify_None [H4 [H5 H6]]%classify_None.
  assert (Hr1 := on_message_returned _ _ _ _ _
            (handle_constraint sessionId n1 (UI_RESPONSE p1 sel1) p1 sel1 w s
               eq_refl eq_refl eq_refl Hb H1 H2 H3)).
  set (s1 := answered s n1 p1 sel1 (with_constraint p1 (VStr sel1) (brief s))) in *.
  set (w1 := {| db := <[sessionId := s1]> (db w); wire := wire w |}) in *.
  assert (Hb1 : db w1 !! sessionId = Some s1) by apply lookup_insert_eq.
  assert (Hr2 := on_message_returned _ _ _ _ _
            (handle_constraint sessionId n2 (UI_RESPONSE p2 sel2) p2 sel2 w1 s1
               eq_refl eq_refl eq_refl Hb1 H4 H5 H6)).
  rewrite (serve_two _ _ _ _ _ _ _ _ Hr1 Hr2). simpl.
  eexists. split; [ apply lookup_insert_eq |]. simpl.
  split; [ reflexivity |]. split; [ apply lookup_insert_eq |].
  destruct (String.eqb_spec p1 p2) as [->|Hne].
  - apply lookup_insert_eq.
  - rewrite lookup_insert_ne by congruence. apply lookup_insert_eq.
Qed.

Lemma constraints_accumulate_witness :
  ∃ s',
    db (after (serve "abc123" [ (1700000000007, Json (UI_RESPONSE "light" "north"));
                                (1700000000009, Json (UI_RESPONSE "size" "large")) ])
              (world_of moody_abc123))
      !! "abc123" = Some s' ∧
    brief s' = with_constraint "size" (VStr "large")
                 (with_constraint "light" (VStr "north") (brief moody_abc123)) ∧
    constraints (brief s') !! "size" = Some (VStr "large") ∧
    constraints (brief s') !! "light" =
      Some (VStr (if String.eqb "light" "size" then "large" else "north")).
Proof.
  apply (constraints_accumulate "abc123" 1700000000007 1700000000009
           "light" "north" "size" "large" (world_of moody_abc123) moody_abc123);
    reflexivity.
Defined.

(** X15: a scalar of the brief is last-write-wins: of two [UI_RESPONSE]
    frames whose prompts stand for the same scalar (whatever their spelling),
    the second answer is the one the brief keeps, nothing else of the brief
    moves, and both answers are in the approvals, in their order. *)
Theorem scalar_is_last_write_wins
    (sessionId : string) (n1 n2 : Z) (p1 sel1 p2 sel2 : string) (f : scalar)
    (w : world) (s : Session) :
  db w !! sessionId = Some s →
  classify p1 = Some f →
  classify p2 = Some f →
  ∃ s',
    db (after (serve sessionId [ (n1, Json (UI_RESPONSE p1 sel1));
                                 (n2, Json (UI_RESPONSE p2 sel2)) ]) w)
      !! sessionId = Some s' ∧
    brief s' = with_scalar f (VStr sel2) (brief s) ∧
    approvals s' = approvals s ++
      [ {| ts := n1; text := "UI_RESPONSE " +:+ p1 +:+ " -> " +:+ sel1 |};
        {| ts := n2; text := "UI_RESPONSE " +:+ p2 +:+ " -> " +:+ sel2 |} ].
Proof.
  intros Hb H1%classify_Some H2%classify_Some.
  assert (Hr1 := on_message_returned _ _ _ _ _
            (handle_scalar sessionId n1 (UI_RESPONSE p1 sel1) p1 sel1 w s
               eq_refl eq_refl eq_refl Hb f H1)).
  set (s1 := answered s n1 p1 sel1 (with_scalar f (VStr sel1) (brief s))) in *.
  set (w1 := {| db := <[sessionId := s1]> (db w); wire := wire w |}) in *.
  assert (Hb1 : db w1 !! sessionId = Some s1) by apply lookup_insert_eq.
  assert (Hr2 := on_message_returned _ _ _ _ _
            (handle_scalar sessionId n2 (UI_RESPONSE p2 sel2) p2 sel2 w1 s1
               eq_refl eq_refl eq_refl Hb1 f H2)).
  rewrite (serve_two _ _ _ _ _ _ _ _ Hr1 Hr2). simpl.
  eexists. split; [ apply lookup_insert_eq |]. simpl.
  split; [ destruct f; reflexivity | now rewrite <- app_assoc ].
Qed.

Lemma scalar_is_last_write_wins_witness :
  ∃ s',
    db (after (serve "abc123" [ (1700000000007, Json (UI_RESPONSE "style_modern" "bold"));
                                (1700000000009, Json (UI_RESPONSE "STYLE-2" "soft")) ])
              (world_of moody_abc123))
      !! "abc123" = Some s' ∧
    brief s' = with_scalar Style (VStr "soft") (brief moody_abc123) ∧
    approvals s' = approvals moody_abc123 ++
      [ {| ts := 1700000000007;
           text := "UI_RESPONSE " +:+ "style_modern" +:+ " -> " +:+ "bold" |};
        {| ts := 1700000000009;
           text := "UI_RESPONSE " +:+ "STYLE-2" +:+ " -> " +:+ "soft" |} ].
Proof.
  apply (scalar_is_last_write_wins "abc123" 1700000000007 1700000000009
           "style_modern" "bold" "STYLE-2" "soft" Style
           (world_of moody_abc123) moody_abc123); reflexivity.
Defined.

(** ** Connecting *)

(** X16: connecting loads or creates, and only with a session id.  Without a
    [sessionId] in the URL, or with an empty one, the connection is closed
    with code 1008 and reason "Missing sessionId parameter" and the store is
    not touched, not even a session stored under the empty id.  With one, a
    session that the store holds is kept as it is, approvals and brief
    included; a missing one is created empty with the current time; nothing
    is sent, the connection stays open, and the other sessions are
    untouched. *)
Theorem on_connection_loads_or_creates
    (sessionId : option string) (now : Z) (w : world) :
  let w' := after (on_connection sessionId now) w in
  threw (on_connection sessionId now) w = None ∧
  match sessionId with
  | None | Some EmptyString =>
      w' = {| db := db w;
              wire := wire w ++ [ Close 1008 "Missing sessionId parameter" ] |}
  | Some id =>
      wire w' = wire w ∧
      db w' !! id = Some (default (empty_session id now) (db w !! id)) ∧
      ∀ other, other ≠ id → db w' !! other = db w !! other
  end.
Proof.
  cbv zeta. unfold after, threw, on_connection.
  destruct sessionId as [[|c id]|]; [ split; reflexivity | | split; reflexivity ].
  unfold mbind, M_bind, storage_getSession, DbStorage.getSession, storage,
    DbStorage.createSession, mret, M_ret. simpl.
  destruct (db w !! String c id) as [s|] eqn:Hs; simpl.
  - repeat split; auto.
  - repeat split; [ apply lookup_insert_eq |].
    intros other Hne. now apply lookup_insert_ne.
Qed.

(** * The HTTP routes *)

(** ** Strings *)


Lemma substring_all (s : string) : String.substring 0 (String.length s) s = s.
Proof. induction s as [|c s IH]; simpl; [ reflexivity | now rewrite IH ]. Qed.

Lemma prefix_app (p t : string) : String.prefix p (p +:+ t) = true.
Proof.
  induction p as [|c p IH]; simpl; [ now destruct t |].
  destruct (Ascii.ascii_dec c c); [ exact IH | congruence ].
Qed.

Lemma substring_skip_app (p t : string) (m : nat) :
  String.substring (String.length p) m (p +:+ t) = String.substring 0 m t.
Proof. induction p as [|c p IH]; simpl; [ reflexivity | exact IH ]. Qed.

Lemma length_append (p t : string) :
  String.length (p +:+ t) = (String.length p + String.length t)%nat.
Proof. induction p as [|c p IH]; simpl; [ reflexivity | now rewrite IH ]. Qed.

Lemma remove_first_leading (p t : string) : remove_first p (p +:+ t) = t.
Proof.
  assert (H : ∀ s, String.prefix p s = true →
                   remove_first p s =
                   String.substring (String.length p)
                     (String.length s - String.length p) s)
    by (intros [|c s] Hs; cbn [remove_first]; now rewrite Hs).
  rewrite H by apply prefix_app.
  rewrite substring_skip_app, length_append.
  replace (String.length p + String.length t - String.length p)%nat
    with (String.length t) by lia.
  apply substring_all.
Qed.

(** ** Who a request is *)

(** X17: a token that the table of auth sessions maps to an existing user
    authenticates the request when it comes as "Bearer <token>" in the
    [Authorization] header, whatever the cookie says; when it comes in the
    cookie and the header is absent or holds no token; and also when it is
    the whole header without the word "Bearer", the scheme not being
    required. *)
Theorem token_is_accepted_from_header_or_cookie
    (token : string) (userId : Z) (u : User.t)
    (authSessions : gmap string Z) (users : list User.t) :
  token ≠ "" →
  authSessions !! token = Some userId →
  Storage.getUserById userId users = Some u →
  (∀ cookie, authMiddleware {| authorization := Some ("Bearer " +:+ token);
                               cookie_token := cookie |} authSessions users = Some u) ∧
  authMiddleware {| authorization := None; cookie_token := Some token |}
    authSessions users = Some u ∧
  authMiddleware {| authorization := Some "Bearer "; cookie_token := Some token |}
    authSessions users = Some u ∧
  (remove_first "Bearer " token = token →
   ∀ cookie, authMiddleware {| authorization := Some token; cookie_token := cookie |}
               authSessions users = Some u).
Proof.
  intros Hne Htok Huser. destruct token as [|c rest]; [ congruence |].
  unfold authMiddleware, Storage.getAuthSession;
    cbn [authorization cookie_token fmap option_fmap option_map].
  repeat split.
  - intros cookie. rewrite remove_first_leading. cbv beta iota zeta. now rewrite Htok.
  - cbv beta iota zeta. now rewrite Htok.
  - change (remove_first "Bearer " "Bearer ") with "". cbv beta iota zeta.
    now rewrite Htok.
  - intros Hraw cookie. rewrite Hraw. cbv beta iota zeta. now rewrite Htok.
Qed.

Lemma token_is_accepted_from_header_or_cookie_witness :
  (∀ cookie, authMiddleware {| authorization := Some ("Bearer " +:+ "5f2a9c");
                               cookie_token := cookie |} demo_tokens demo_users =
             Some demo_business) ∧
  authMiddleware {| authorization := None; cookie_token := Some "5f2a9c" |}
    demo_tokens demo_users = Some demo_business ∧
  authMiddleware {| authorization := Some "Bearer "; cookie_token := Some "5f2a9c" |}
    demo_tokens demo_users = Some demo_business ∧
  (remove_first "Bearer " "5f2a9c" = "5f2a9c" →
   ∀ cookie, authMiddleware {| authorization := Some "5f2a9c"; cookie_token := cookie |}
               demo_tokens demo_users = Some demo_business).
Proof.
  apply (token_is_accepted_from_header_or_cookie "5f2a9c" 2 demo_business
           demo_tokens demo_users); [ discriminate | reflexivity | reflexivity ].
Defined.

(** X18: [POST /api/auth/logout] always answers 200 and revokes the token of
    the [Authorization] header: the same header no longer authenticates, so
    that [GET /api/auth/me] and [GET /api/call-logs] answer 401 to it.  It
    revokes nothing else: the other tokens stay, and a request that carries
    its token in the cookie only is answered 200 with no token deleted. *)
Theorem logout_revokes_the_header_token
    (req : request) (authSessions : gmap string Z) (users : list User.t)
    (logs : list CallLog.t) :
  let sessions' := (logout_route req authSessions).2 in
  let again := {| authorization := authorization req; cookie_token := None |} in
  (logout_route req authSessions).1 = Reply 200 Ok_body ∧
  authMiddleware again sessions' users = None ∧
  me_route (authMiddleware again sessions' users) =
    Reply 401 (Error_body "Not authenticated") ∧
  get_call_logs_route (authMiddleware again sessions' users) logs =
    Reply 401 (Error_body "Not authenticated") ∧
  (∀ t, remove_first "Bearer " <$> authorization req ≠ Some t →
        sessions' !! t = authSessions !! t) ∧
  (authorization req = None → sessions' = authSessions).
Proof.
  cbv zeta.
  assert (Hnone : authMiddleware
                    {| authorization := authorization req; cookie_token := None |}
                    (logout_route req authSessions).2 users = None).
  { unfold authMiddleware, logout_route, Storage.getAuthSession,
      Storage.deleteAuthSession; cbn [authorization cookie_token].
    destruct (authorization req) as [h|]; cbn [fmap option_fmap option_map];
      [| reflexivity ].
    destruct (remove_first "Bearer " h) as [|c rest]; cbn [snd]; [ reflexivity |].
    now rewrite lookup_delete_eq. }
  rewrite Hnone. unfold logout_route, Storage.deleteAuthSession.
  destruct (authorization req) as [h|]; cbn [fmap option_fmap option_map].
  - destruct (remove_first "Bearer " h) as [|c rest]; cbn [fst snd];
      repeat split; try discriminate.
    intros t Ht. apply lookup_delete_ne. congruence.
  - repeat split.
Qed.

(** ** Call logs *)





(** ** Users *)

Lemma find_app_None {A : Type} (f : A → bool) (l l' : list A) :
  find f l = None → find f (l ++ l') = find f l'.
Proof. induction l as [|x l IH]; simpl; [ reflexivity |]. destruct (f x); [ discriminate | exact IH ]. Qed.

Lemma find_app_Some {A : Type} (f : A → bool) (l l' : list A) (x : A) :
  find f l = Some x → find f (l ++ l') = Some x.
Proof. induction l as [|y l IH]; simpl; [ discriminate |]. destruct (f y); [ trivial | exact IH ]. Qed.

Lemma find_existsb {A : Type} (f : A → bool) (l : list A) :
  existsb f l = false ↔ find f l = None.
Proof.
  induction l as [|x l IH]; simpl; [ tauto |].
  destruct (f x); simpl; [ split; discriminate | exact IH ].
Qed.

(** X21: emails are unique without regard to letter case.  [createUser]
    fails exactly when [getUserByEmail] finds the email; when it succeeds
    the new row is appended with its email in lowercase, [getUserByEmail]
    finds it under every spelling that differs only in case, and finds the
    users it found before. *)
Theorem createUser_is_case_insensitive
    (userData : InsertUser.t) (new_id now : Z) (users : list User.t) :
  match Storage.createUser userData new_id now users with
  | Db_error => is_Some (Storage.getUserByEmail (InsertUser.email userData) users)
  | Db_ok (row, users') =>
      Storage.getUserByEmail (InsertUser.email userData) users = None ∧
      users' = users ++ [row] ∧
      User.id row = new_id ∧
      User.email row = toLowerCase (InsertUser.email userData) ∧
      (∀ spelling,
         toLowerCase spelling = toLowerCase (InsertUser.email userData) →
         Storage.getUserByEmail spelling users' = Some row) ∧
      (∀ email u,
         Storage.getUserByEmail email users = Some u →
         Storage.getUserByEmail email users' = Some u)
  end.
Proof.
  unfold Storage.createUser, Storage.getUserByEmail. cbn [User.email].
  destruct (existsb _ users) eqn:Hex.
  - destruct (find _ users) eqn:Hf; [ eauto |].
    apply find_existsb in Hf. congruence.
  - apply find_existsb in Hex.
    repeat split; auto.
    + intros spelling Hsp. rewrite Hsp, (find_app_None _ _ _ Hex). simpl.
      now rewrite String.eqb_refl.
    + intros email u. apply find_app_Some.
Qed.

(** ** Signing up and logging in *)






(** X24: a failed login tells nothing about which part failed: an email that
    is not registered and a wrong password for a registered one get the same
    answer, 401 "Invalid email or password", and neither creates an auth
    session. *)
Theorem login_failures_look_alike
    (verifyPassword : string → string → bool) (r : LoginRequest) (token : string)
    (users : list User.t) (authSessions : gmap string Z) :
  match Storage.getUserByEmail (login_email r) users with
  | None => True
  | Some u => verifyPassword (login_password r) (User.passwordHash u) = false
  end →
  login_route verifyPassword (Some r) token users authSessions =
  (Reply 401 (Error_body "Invalid email or password"), authSessions).
Proof.
  unfold login_route.
  destruct (Storage.getUserByEmail (login_email r) users) as [u|]; [| reflexivity ].
  now intros ->.
Qed.

Lemma login_failures_look_alike_witness :
  login_route (λ password hash, String.eqb hash ("$2a$10$" +:+ password))
    (Some {| login_email := "demobusiness@contrahackathon.com";
             login_password := "guess" |})
    "77aa" demo_users demo_tokens =
  (Reply 401 (Error_body "Invalid email or password"), demo_tokens) ∧
  login_route (λ password hash, String.eqb hash ("$2a$10$" +:+ password))
    (Some {| login_email := "nobody@example.com"; login_password := "guess" |})
    "77aa" demo_users demo_tokens =
  (Reply 401 (Error_body "Invalid email or password"), demo_tokens).
Proof.
  split.
  - apply (login_failures_look_alike _
             {| login_email := "demobusiness@contrahackathon.com";
                login_password := "guess" |}).
    reflexivity.
  - apply (login_failures_look_alike _
             {| login_email := "nobody@example.com"; login_password := "guess" |}).
    exact I.
Defined.

(** X25: a successful login can be used at once, under every spelling of the
    email: when the password verifies against the stored hash and the token
    is new and not empty, the route answers 200 with the token and the user,
    keeps the sessions that were there, and a request that carries "Bearer
    <token>" is then authenticated as that user (ids being unique in the
    table). *)
Theorem login_then_authenticated
    (verifyPassword : string → string → bool) (r : LoginRequest) (token : string)
    (users : list User.t) (authSessions : gmap string Z) (u : User.t) :
  Storage.getUserByEmail (login_email r) users = Some u →
  verifyPassword (login_password r) (User.passwordHash u) = true →
  Storage.getUserById (User.id u) users = Some u →
  authSessions !! token = None →
  token ≠ "" →
  login_route verifyPassword (Some r) token users authSessions =
    (Reply 200 (Token_body token (User.id u) (User.email u) (User.accountType u)),
     <[token := User.id u]> authSessions) ∧
  User.email u = toLowerCase (login_email r) ∧
  (∀ cookie,
     authMiddleware {| authorization := Some ("Bearer " +:+ token);
                       cookie_token := cookie |}
       (<[token := User.id u]> authSessions) users = Some u) ∧
  (∀ other, other ≠ token →
            (<[token := User.id u]> authSessions) !! other = authSessions !! other).
Proof.
  intros Hu Hpw Hid Htok Hne.
  unfold login_route, Storage.createAuthSession. rewrite Hu, Hpw, Htok.
  repeat split.
  - unfold Storage.getUserByEmail in Hu. apply find_some in Hu as [_ Heq].
    now apply String.eqb_eq in Heq.
  - intros cookie.
    apply (token_is_accepted_from_header_or_cookie token (User.id u) u); auto.
    apply lookup_insert_eq.
  - intros other Hother. now apply lookup_insert_ne.
Qed.

Lemma login_then_authenticated_witness :
  let verify := λ password hash, String.eqb hash ("$2a$10$" +:+ password) in
  let r := {| login_email := "DemoBusiness@contrahackathon.com";
              login_password := "business" |} in
  login_route verify (Some r) "77aa" demo_users demo_tokens =
    (Reply 200 (Token_body "77aa" (User.id demo_business) (User.email demo_business)
                  (User.accountType demo_business)),
     <["77aa" := User.id demo_business]> demo_tokens) ∧
  User.email demo_business = toLowerCase (login_email r) ∧
  (∀ cookie,
     authMiddleware {| authorization := Some ("Bearer " +:+ "77aa");
                       cookie_token := cookie |}
       (<["77aa" := User.id demo_business]> demo_tokens) demo_users =
     Some demo_business) ∧
  (∀ other, other ≠ "77aa" →
            (<["77aa" := User.id demo_business]> demo_tokens) !! other =
            demo_tokens !! other).
Proof.
  cbv zeta.
  apply (login_then_authenticated _
           {| login_email := "DemoBusiness@contrahackathon.com";
              login_password := "business" |} "77aa" demo_users demo_tokens
           demo_business); try reflexivity.
  discriminate.
Defined.

(** * The client's [AuthProvider] *)



(** ** Demo data *)

Lemma filter_app_cons {A : Type} (f : A → bool) (l : list A) (x : A) :
  f x = true → List.filter f (l ++ [x]) ≠ [].
Proof.
  intros Hx. rewrite List.filter_app. simpl. rewrite Hx.
  destruct (List.filter f l); discriminate.
Qed.

Lemma insert_calls_keeps_logs (u : User.t) calls (i : nat)
    (log_id log_now : nat → Z) (callLogs : list CallLog.t) :
  getCallLogsByUserId (User.id u) callLogs ≠ [] →
  getCallLogsByUserId (User.id u) (insert_calls u calls i log_id log_now callLogs) ≠ [].
Proof.
  revert i callLogs. induction calls as [|[[[[t su] st] pa] fi] rest IH];
    intros i callLogs Hne; simpl; [ exact Hne |].
  apply IH. unfold getCallLogsByUserId in *. rewrite List.filter_app.
  destruct (List.filter _ callLogs); [ congruence | discriminate ].
Qed.

Lemma insert_calls_makes_logs (u : User.t) (i : nat)
    (log_id log_now : nat → Z) (callLogs : list CallLog.t) :
  User.id u ≠ 0 →
  getCallLogsByUserId (User.id u)
    (insert_calls u mockCalls i log_id log_now callLogs) ≠ [].
Proof.
  intros Hid. unfold mockCalls. cbn [insert_calls].
  repeat apply insert_calls_keeps_logs.
  unfold Storage.createCallLog, getCallLogsByUserId. cbn [snd].
  apply filter_app_cons. cbn [CallLog.userId InsertCallLog.userId].
  destruct (User.id u) eqn:E; try congruence; cbn [number_or_null];
    apply Z.eqb_refl.
Qed.

(** X27: seeding the demo data settles after one run.  When no user has the
    id 0, a run of [seedDemoData] leaves both demo accounts registered and
    the business account with call logs, and a second run, whatever ids,
    hashes and time it is given, changes neither the users nor the call
    logs. *)
Theorem seedDemoData_settles
    (first second : seed_supply) (users : list User.t) (callLogs : list CallLog.t) :
  (∀ u, u ∈ users → User.id u ≠ 0) →
  id_business first ≠ 0 →
  let seeded := seedDemoData first users callLogs in
  is_Some (Storage.getUserByEmail "democlient@contrahackathon.com" seeded.1) ∧
  (∃ business,
     Storage.getUserByEmail "demobusiness@contrahackathon.com" seeded.1 = Some business ∧
     getCallLogsByUserId (User.id business) seeded.2 ≠ []) ∧
  seedDemoData second seeded.1 seeded.2 = seeded.
Proof.
  intros Hids Hb. cbv zeta.
  assert (Hfind_id : ∀ (l : list User.t) e u,
            (∀ u, u ∈ l → User.id u ≠ 0) →
            Storage.getUserByEmail e l = Some u → User.id u ≠ 0).
  { intros l e u Hl Hf. unfold Storage.getUserByEmail in Hf.
    apply find_some in Hf as [Hin _]. apply Hl. now apply list_elem_of_In. }
  (* the state after the first run, with what the second run needs of it *)
  assert (Hfirst :
    ∃ client business,
      Storage.getUserByEmail "democlient@contrahackathon.com"
        (seedDemoData first users callLogs).1 = Some client ∧
      Storage.getUserByEmail "demobusiness@contrahackathon.com"
        (seedDemoData first users callLogs).1 = Some business ∧
      getCallLogsByUserId (User.id business) (seedDemoData first users callLogs).2 ≠ []).
  { unfold seedDemoData.
    assert (Hc1 := createUser_is_case_insensitive
                     {| InsertUser.email := "democlient@contrahackathon.com";
                        InsertUser.passwordHash := hash_client first;
                        InsertUser.accountType := Some "personal" |}
                     (id_client first) (now_client first) users).
    destruct (Storage.getUserByEmail "democlient@contrahackathon.com" users)
      as [client|] eqn:Hclient.
    - (* the client account was there *)
      assert (Hc2 := createUser_is_case_insensitive
                       {| InsertUser.email := "demobusiness@contrahackathon.com";
                          InsertUser.passwordHash := hash_business first;
                          InsertUser.accountType := Some "business" |}
                       (id_business first) (now_business first) users).
      destruct (Storage.getUserByEmail "demobusiness@contrahackathon.com" users)
        as [business|] eqn:Hbusiness.
      + exists client, business.
        destruct (getCallLogsByUserId (User.id business) callLogs) eqn:Hlogs;
          cbn [fst snd]; repeat split; auto.
        * apply insert_calls_makes_logs. eauto.
        * congruence.
      + destruct (Storage.createUser _ (id_business first) _ users)
          as [[row users2]|]; cbn in Hc2.
        2: { rewrite Hbusiness in Hc2. now destruct Hc2. }
        destruct Hc2 as (_ & -> & Hid & _ & Hnew & Hold).
        exists client, row.
        assert (Hrow : User.id row ≠ 0) by congruence.
        destruct (getCallLogsByUserId (User.id row) callLogs) eqn:Hlogs;
          cbn [fst snd]; repeat split; auto.
        * now apply insert_calls_makes_logs.
        * congruence.
    - destruct (Storage.createUser _ (id_client first) _ users)
        as [[crow users1]|]; cbn in Hc1.
      2: { rewrite Hclient in Hc1. now destruct Hc1. }
      destruct Hc1 as (_ & -> & Hcid & _ & Hcnew & Hcold).
      assert (Hc2 := createUser_is_case_insensitive
                       {| InsertUser.email := "demobusiness@contrahackathon.com";
                          InsertUser.passwordHash := hash_business first;
                          InsertUser.accountType := Some "business" |}
                       (id_business first) (now_business first) (users ++ [crow])).
      destruct (Storage.getUserByEmail "demobusiness@contrahackathon.com"
                  (users ++ [crow])) as [business|] eqn:Hbusiness.
      + exists crow, business.
        assert (Hbid : User.id business ≠ 0).
        { unfold Storage.getUserByEmail in Hbusiness.
          apply find_some in Hbusiness as [Hin Heq].
          apply in_app_or in Hin as [Hin|[<-|[]]].
          - apply Hids. now apply list_elem_of_In.
          - unfold Storage.createUser in *. exfalso.
            assert (Hm := Hcnew "democlient@contrahackathon.com" eq_refl).
            unfold Storage.getUserByEmail in Hm.
            apply find_some in Hm as [_ Hm].
            apply String.eqb_eq in Hm, Heq. rewrite Hm in Heq. discriminate Heq. }
        destruct (getCallLogsByUserId (User.id business) callLogs) eqn:Hlogs;
          cbn [fst snd]; repeat split; auto.
        * now apply insert_calls_makes_logs.
        * congruence.
      + destruct (Storage.createUser _ (id_business first) _ (users ++ [crow]))
          as [[row users2]|]; cbn in Hc2.
        2: { rewrite Hbusiness in Hc2. now destruct Hc2. }
        destruct Hc2 as (_ & -> & Hid & _ & Hnew & Hold).
        exists crow, row.
        assert (Hrow : User.id row ≠ 0) by congruence.
        destruct (getCallLogsByUserId (User.id row) callLogs) eqn:Hlogs;
          cbn [fst snd]; repeat split; auto.
        * now apply insert_calls_makes_logs.
        * congruence. }
  destruct Hfirst as (client & business & Hclient & Hbusiness & Hlogs).
  split; [ eauto |]. split; [ eauto |].
  destruct (seedDemoData first users callLogs) as [users' callLogs'].
  cbn [fst snd] in *. unfold seedDemoData. rewrite Hclient, Hbusiness.
  destruct (getCallLogsByUserId (User.id business) callLogs'); [ congruence | reflexivity ].
Qed.

Lemma seedDemoData_settles_witness :
  let first := {| hash_client := "$2a$10$client"; hash_business := "$2a$10$business";
                  id_client := 1; id_business := 2;
                  now_client := 1700000000000; now_business := 1700000000040;
                  log_id := λ i, 1 + Z.of_nat i;
                  log_now := λ i, 1700000000100 + Z.of_nat i |} in
  let second := {| hash_client := "$2a$10$other"; hash_business := "$2a$10$other";
                   id_client := 3; id_business := 4;
                   now_client := 1700000999000; now_business := 1700000999040;
                   log_id := λ i, 6 + Z.of_nat i;
                   log_now := λ i, 1700000999100 + Z.of_nat i |} in
  let seeded := seedDemoData first [] [] in
  is_Some (Storage.getUserByEmail "democlient@contrahackathon.com" seeded.1) ∧
  (∃ business,
     Storage.getUserByEmail "demobusiness@contrahackathon.com" seeded.1 = Some business ∧
     getCallLogsByUserId (User.id business) seeded.2 ≠ []) ∧
  seedDemoData second seeded.1 seeded.2 = seeded.
Proof.
  cbv zeta.
  apply (seedDemoData_settles _ _ [] []).
  - intros u Hu. now apply elem_of_nil in Hu.
  - discriminate.
Defined.
